(** * mini-crm: seed script, auth router and login page

    A shallow embedding of three files of the repository

      - [mini-crm-backend/seed/seed.js]        (module [Seed])
      - [mini-crm-backend/src/routes/auth.js]  (module [AuthRoutes])
      - [mini-crm-frontend/pages/login.js]     (module [LoginPage])

    together with the pieces of the backend that the properties below talk
    about and that these files only call or stand beside: the auth
    middleware, the User and Lead schemas, the routers of the other
    resources, and the login, lead and task controllers.  Those are
    modelled from the specification and marked as such.  The router is
    run the way Express runs it: patterns are matched as regular
    expressions, parameters are percent-decoded, OPTIONS is answered.

    Part I embeds the code, Part II fixes the vocabulary of the
    properties, Part III proves them, Part IV adds further properties. *)

From Stdlib Require Import Ascii ZArith Lia.
From stdpp Require Import base option list strings pretty gmap.

Set Warnings "-register-all".

Local Open Scope Z_scope.

(** * Part I: the code *)

(** ** JavaScript values *)

Module Js.

(** The values that flow through the three files: primitives, [Date]s
    (milliseconds since the epoch), Mongo [ObjectId]s, arrays and plain
    objects.  An object keeps its properties in insertion order. *)
Inductive Value : Type :=
| VUndefined
| VNull
| VBool (b : bool)
| VNum (n : Z)
| VStr (s : string)
| VDate (ms : Z)
| VId (oid : nat)
| VArr (xs : list Value)
| VObj (fields : list (string * Value)).

Definition Obj : Type := list (string * Value).

(** [o.k] on a plain object: the property, or [undefined]. *)
Fixpoint prop (k : string) (o : Obj) : Value :=
  match o with
  | [] => VUndefined
  | (k', v) :: o' => if String.eqb k k' then v else prop k o'
  end.

(** [k in o] for own properties. *)
Fixpoint has_prop (k : string) (o : Obj) : bool :=
  match o with
  | [] => false
  | (k', _) :: o' => String.eqb k k' || has_prop k o'
  end.

(** [o.k = v]: the property is overwritten in place, or added at the end. *)
Fixpoint set_prop (k : string) (v : Value) (o : Obj) : Obj :=
  match o with
  | [] => [(k, v)]
  | (k', v') :: o' =>
      if String.eqb k k' then (k', v) :: o' else (k', v') :: set_prop k v o'
  end.

(** ToBoolean. *)
Definition truthy (v : Value) : bool :=
  match v with
  | VUndefined | VNull => false
  | VBool b => b
  | VNum n => negb (n =? 0)
  | VStr s => negb (String.eqb s EmptyString)
  | VDate _ | VId _ | VArr _ | VObj _ => true
  end.

(** [a || b]. *)
Definition or_else (a b : Value) : Value := if truthy a then a else b.

Definition nullish (v : Value) : bool :=
  match v with VUndefined | VNull => true | _ => false end.

(** [v.k] where [v] is known not to be nullish: only plain objects have
    the properties read in these files. *)
Definition member (k : string) (v : Value) : Value :=
  match v with
  | VObj o => prop k o
  | _ => VUndefined
  end.

(** [v?.k]. *)
Definition opt_member (k : string) (v : Value) : Value :=
  if nullish v then VUndefined else member k v.

(** A string is a sequence of bytes.  [is_ascii] singles out the bytes
    below 128; a string of such bytes is ASCII text. *)
Definition is_ascii (c : ascii) : bool := Nat.ltb (nat_of_ascii c) 128.

(** [s.toLowerCase()] for ASCII text [s]: the letters A-Z are the only
    ASCII characters the method changes.  On other text the function below
    only folds the ASCII letters, which is not what JavaScript does; the
    properties that speak of [toLowerCase] are stated for ASCII text. *)
Definition lower_ascii (c : ascii) : ascii :=
  let n := nat_of_ascii c in
  if (Nat.leb 65 n && Nat.leb n 90)%bool then ascii_of_nat (n + 32) else c.

Fixpoint toLowerCase (s : string) : string :=
  match s with
  | EmptyString => EmptyString
  | String c s' => String (lower_ascii c) (toLowerCase s')
  end.

(** The regular-expression class [\s] on ASCII text: tab, line feed,
    vertical tab, form feed, carriage return and space.  (The class also
    holds characters outside ASCII, which are not recognised here.) *)
Definition is_ws (c : ascii) : bool :=
  let n := nat_of_ascii c in
  (Nat.leb 9 n && Nat.leb n 13)%bool || Nat.eqb n 32.

(** [s.replace(/\s+/g, r)] for ASCII text [s]: every maximal run of white
    space becomes [r].  [in_run] tells whether the previous character was
    white space. *)
Fixpoint replace_ws_from (in_run : bool) (r s : string) : string :=
  match s with
  | EmptyString => EmptyString
  | String c s' =>
      if is_ws c
      then (if in_run then replace_ws_from true r s'
            else r +:+ replace_ws_from true r s')
      else String c (replace_ws_from false r s')
  end.

Definition replace_ws (r s : string) : string := replace_ws_from false r s.

(** Completion of a statement or of an [await]: a value, or a thrown
    exception. *)
Inductive Result (A : Type) : Type :=
| Ok (a : A)
| Throw (e : Value).
Arguments Ok {A} a.
Arguments Throw {A} e.

(** An error object, and the error as a thrown value. *)
Definition error_obj (kind msg : string) : Obj :=
  [("name", VStr kind); ("message", VStr msg)].

Definition error (kind msg : string) : Value := VObj (error_obj kind msg).

Definition TypeError (msg : string) : Value := error "TypeError" msg.

End Js.

Export Js.

(** ** The Mongo collections behind the Mongoose models *)

Module Mongo.

Definition Doc : Type := Obj.

(** The models of the application.  The seed script requires the first
    four; activities are only written by the controllers. *)
Inductive Model : Type := User | Lead | Customer | Task | Activity.

Record Db : Type := mkDb {
  users : list Doc;
  leads : list Doc;
  customers : list Doc;
  tasks : list Doc;
  activities : list Doc;
  next_id : nat  (* source of fresh ObjectIds *)
}.

Definition docs (m : Model) (d : Db) : list Doc :=
  match m with
  | User => users d
  | Lead => leads d
  | Customer => customers d
  | Task => tasks d
  | Activity => activities d
  end.

Definition set_docs (m : Model) (l : list Doc) (d : Db) : Db :=
  match m with
  | User =>
      mkDb l (leads d) (customers d) (tasks d) (activities d) (next_id d)
  | Lead =>
      mkDb (users d) l (customers d) (tasks d) (activities d) (next_id d)
  | Customer =>
      mkDb (users d) (leads d) l (tasks d) (activities d) (next_id d)
  | Task =>
      mkDb (users d) (leads d) (customers d) l (activities d) (next_id d)
  | Activity =>
      mkDb (users d) (leads d) (customers d) (tasks d) l (next_id d)
  end.

Definition fresh_id (d : Db) : nat * Db :=
  (next_id d,
   mkDb (users d) (leads d) (customers d) (tasks d) (activities d)
        (S (next_id d))).

(** [doc._id] *)
Definition _id (d : Doc) : Value := prop "_id" d.

Section Schemas.

(** bcrypt's hash, as used by the password hook of the User model. *)
Variable bcrypt_hash : string -> string.

(** Modelled from the spec: the password hook of the schema of
    [models/User.js], which is not among the sources.  A User holds a
    hashed credential (spec section 3): the password an object is created
    with is replaced by its hash.  Nothing else is added to the object. *)
Definition user_presave (o : Obj) : Obj :=
  match prop "password" o with
  | VStr p => set_prop "password" (VStr (bcrypt_hash p)) o
  | _ => o
  end.

(** What a model does to an object before it is stored.  The Lead,
    Customer and Task schemas are not among the sources; their documents
    are stored with the properties they were given. *)
Definition presave (m : Model) (o : Obj) : Obj :=
  match m with
  | User => user_presave o
  | _ => o
  end.

(** The four values of the status of a Lead (spec section 3). *)
Definition lead_statuses : list string :=
  ["New"; "In Progress"; "Closed Won"; "Closed Lost"].

(** Modelled from the spec: the validation of the schema of
    [models/Lead.js], which is not among the sources.  The status of a Lead
    is one of New, In Progress, Closed Won, Closed Lost (spec section 3): an
    object with any other status, or with none, is not a Lead.  The other
    constraints of the schemas are not modelled. *)
Definition valid (m : Model) (o : Obj) : bool :=
  match m with
  | Lead =>
      match prop "status" o with
      | VStr s => existsb (String.eqb s) lead_statuses
      | _ => false
      end
  | _ => true
  end.

Definition ValidationError (m : Model) : Value :=
  error "ValidationError"
    (match m with
     | User => "User" | Lead => "Lead" | Customer => "Customer"
     | Task => "Task" | Activity => "Activity"
     end +:+ " validation failed").

(** Modelled from the spec: the unique index on the email of a User
    (spec section 3, "Invariant: email unique"), also declared in the absent
    [models/User.js]. *)
Definition violates_unique (m : Model) (o : Obj) (d : Db) : bool :=
  match m with
  | User =>
      existsb (fun u => match prop "email" u, prop "email" o with
                        | VStr a, VStr b => String.eqb a b
                        | _, _ => false
                        end) (users d)
  | _ => false
  end.

(** [Model.deleteMany({})] *)
Definition deleteMany (m : Model) (d : Db) : Db := set_docs m [] d.

(** The document is stored: a fresh [_id] is attached and the document is
    appended to the collection, unless a unique index turns it down.  (No
    object built by the seed carries an [_id] of its own.) *)
Definition save (m : Model) (o : Obj) (d : Db) : Result Doc * Db :=
  if violates_unique m o d
  then (Throw (error "MongoServerError" "E11000 duplicate key error"), d)
  else
    let '(i, d1) := fresh_id d in
    let doc := ("_id", VId i) :: presave m o in
    (Ok doc, set_docs m (docs m d1 ++ [doc]) d1).

(** [Model.create(obj)]: the object is validated, then stored. *)
Definition insert_one (m : Model) (o : Obj) (d : Db) : Result Doc * Db :=
  if valid m o then save m o d else (Throw (ValidationError m), d).

(** The objects are stored in order; the first failure stops the
    insertion. *)
Fixpoint save_all (m : Model) (os : list Obj) (d : Db)
  : Result (list Doc) * Db :=
  match os with
  | [] => (Ok [], d)
  | o :: os' =>
      match save m o d with
      | (Throw e, d1) => (Throw e, d1)
      | (Ok doc, d1) =>
          match save_all m os' d1 with
          | (Throw e, d2) => (Throw e, d2)
          | (Ok ds, d2) => (Ok (doc :: ds), d2)
          end
      end
  end.

(** [Model.insertMany(arr)]: every object is validated before anything is
    sent to the database, so one invalid object keeps all of them out. *)
Definition insert_many (m : Model) (os : list Obj) (d : Db)
  : Result (list Doc) * Db :=
  if forallb (valid m) os then save_all m os d
  else (Throw (ValidationError m), d).

(** [Model.findOne()] without a filter: the first document of the
    collection, or [null]. *)
Definition findOne (m : Model) (d : Db) : option Doc := head (docs m d).

End Schemas.

End Mongo.

Export Mongo.

(** ** seed/seed.js *)

Module Seed.

(** What the script can observe and change: the database, the state of the
    connection, how many random numbers and clock readings it has consumed,
    and the console. *)
Record World : Type := mkWorld {
  db : Db;
  connected : bool;
  draws : nat;
  ticks : nat;
  console : list Value
}.

Definition set_db (d : Db) (w : World) : World :=
  mkWorld d (connected w) (draws w) (ticks w) (console w).

Definition set_connected (b : bool) (w : World) : World :=
  mkWorld (db w) b (draws w) (ticks w) (console w).

(** The script is a sequence of awaited effects, any of which may throw. *)
Definition M (A : Type) : Type := World -> Result A * World.

#[global] Instance M_ret : MRet M := fun A a w => (Ok a, w).

#[global] Instance M_bind : MBind M := fun A B k m w =>
  match m w with
  | (Ok a, w1) => k a w1
  | (Throw e, w1) => (Throw e, w1)
  end.

Definition throw {A : Type} (e : Value) : M A := fun w => (Throw e, w).

(** [for (let i = lo; i < lo + n; i++) body], threading the array that the
    body pushes to. *)
Fixpoint for_loop {T : Type} (body : nat -> T -> M T) (lo n : nat) (acc : T)
  : M T :=
  match n with
  | O => mret acc
  | S n' => acc1 ← body lo acc; for_loop body (S lo) n' acc1
  end.

(** *** Numbers

    The numbers the script computes with are IEEE-754 doubles.  Those that
    occur are non-negative and below [2^34], and are written here as
    multiples of [2^-53]: the integer [x] stands for [x / 2^53]. *)
Definition two53 : Z := 2 ^ 53.

(** The double nearest to [x / 2^53] (ties go to the even significand), which
    is the result of an addition or a multiplication whose exact value is
    [x / 2^53].  A value below 1 of this form is a double already; a larger
    one keeps its 53 leading bits. *)
Definition round53 (x : Z) : Z :=
  if x <? two53 then x
  else
    let sh := Z.log2 x - 52 in
    let q := x / 2 ^ sh in
    let rem := x mod 2 ^ sh in
    let half := 2 ^ (sh - 1) in
    if (half <? rem) || ((rem =? half) && Z.odd q)
    then (q + 1) * 2 ^ sh
    else q * 2 ^ sh.

(** [Math.floor(r * k)] and [Math.floor(a + r * k)] for a result [r / 2^53]
    of [Math.random()] and integers [a] and [k]. *)
Definition floor_mul (r k : Z) : Z := round53 (r * k) / two53.

Definition floor_add_mul (a r k : Z) : Z :=
  round53 (a * two53 + round53 (r * k)) / two53.

Section Script.

(** The environment of a run.  [entropy k] stands for the [k]-th result of
    [Math.random()], given as the numerator of a fraction over [2^53];
    [clock k] is the [k]-th reading of [Date.now()]; [db_up] tells whether
    the database can be reached. *)
Variable entropy : nat -> Z.
Variable clock : nat -> Z.
Variable db_up : bool.
Variable bcrypt_hash : string -> string.

(** [Math.random()]: a number [r / 2^53] with [0 <= r < 2^53]. *)
Definition random : M Z := fun w =>
  (Ok (entropy (draws w) mod two53),
   mkWorld (db w) (connected w) (S (draws w)) (ticks w) (console w)).

(** [Date.now()] *)
Definition now : M Z := fun w =>
  (Ok (clock (ticks w)),
   mkWorld (db w) (connected w) (draws w) (S (ticks w)) (console w)).

(** [console.log] and [console.error] *)
Definition log (v : Value) : M unit := fun w =>
  (Ok (), mkWorld (db w) (connected w) (draws w) (ticks w) (console w ++ [v])).

(** [connectDB()] of [config/db.js], which is not among the sources: the
    connection is opened, or the call throws when the database cannot be
    reached. *)
Definition connectDB : M unit := fun w =>
  if db_up then (Ok (), set_connected true w)
  else (Throw (error "MongooseError" "cannot connect"), w).

(** [mongoose.disconnect()] *)
Definition disconnect : M unit := fun w => (Ok (), set_connected false w).

Definition deleteMany (m : Model) : M unit := fun w =>
  (Ok (), set_db (Mongo.deleteMany m (db w)) w).

Definition create (m : Model) (o : Obj) : M Doc := fun w =>
  let '(r, d) := insert_one bcrypt_hash m o (db w) in (r, set_db d w).

Definition insertMany (m : Model) (os : list Obj) : M (list Doc) := fun w =>
  let '(r, d) := insert_many bcrypt_hash m os (db w) in (r, set_db d w).

Definition findOne (m : Model) : M (option Doc) := fun w =>
  (Ok (Mongo.findOne m (db w)), w).

(** [x._id] where [x] is a document or, when [None], the [null] or
    [undefined] named by [what]. *)
Definition id_of (what : string) (x : option Doc) : M Value :=
  match x with
  | Some d => mret (_id d)
  | None =>
      throw (TypeError ("Cannot read properties of " +:+ what +:+
                        " (reading '_id')"))
  end.

(** A string element of an array, as a value and inside a template literal;
    [None] is the [undefined] of an index out of range. *)
Definition js (o : option string) : Value :=
  match o with Some s => VStr s | None => VUndefined end.

Definition tmpl (o : option string) : string := default "undefined" o.

(** [function rand(arr) { return arr[Math.floor(Math.random()*arr.length)]; }] *)
Definition rand {A : Type} (arr : list A) : M (option A) :=
  r ← random;
  mret (arr !! Z.to_nat (floor_mul r (Z.of_nat (length arr)))).

Definition first : list string :=
  ["Alex"; "Jordan"; "Taylor"; "Sam"; "Chris"; "Morgan"; "Priya"; "Aisha";
   "Rahul"; "Ishan"; "Neha"; "Riya"].

Definition last : list string :=
  ["Sharma"; "Patel"; "Singh"; "Khan"; "Gupta"; "Verma"; "Doe"; "Lee"; "Kim";
   "Brown"; "Garcia"; "Miller"].

Definition name : M string :=
  f ← rand first;
  l ← rand last;
  mret (tmpl f +:+ " " +:+ tmpl l).

Definition domains : list string :=
  ["example.com"; "mail.com"; "corp.co"; "test.org"].

(** [email(n)]; the script calls it on the results of [name()], which are
    ASCII text. *)
Definition email (n : string) : M string :=
  d ← rand domains;
  mret (replace_ws "." (toLowerCase n) +:+ "@" +:+ tmpl d).

(** ['+91' + Math.floor(6000000000 + Math.random()*3999999999)] *)
Definition phone : M string :=
  r ← random;
  mret ("+91" +:+ pretty (floor_add_mul 6000000000 r 3999999999)).

Definition statuses : list string :=
  ["New"; "In Progress"; "Closed Won"; "Closed Lost"].

Definition sources : list string :=
  ["Website"; "Referral"; "Cold Call"; "LinkedIn"; "Email"].

Definition companies : list string :=
  ["Acme Inc"; "Globex"; "Initech"; "Umbrella"; "Stark Industries"].

Definition task_statuses : list string := ["Open"; "In Progress"; "Done"].

Definition priorities : list string := ["Low"; "Medium"; "High"].

(** [i % 2 === 0 ? agent1._id : agent2._id] *)
Definition pick_agent (agent1 agent2 : Doc) (i : nat) : Value :=
  if Nat.eqb (i mod 2) 0 then _id agent1 else _id agent2.

(** Body of the loop of lines 34-46. *)
Definition lead_body (agent1 agent2 : Doc) (i : nat) (leads : list Obj)
  : M (list Obj) :=
  n ← name;
  let assignedAgent := pick_agent agent1 agent2 i in
  e ← email n;
  p ← phone;
  st ← rand statuses;
  src ← rand sources;
  mret (leads ++ [[("name", VStr n);
                   ("email", VStr e);
                   ("phone", VStr p);
                   ("status", js st);
                   ("source", js src);
                   ("assignedAgent", assignedAgent);
                   ("history", VArr [VObj [("action", VStr "seeded")]])]]).

(** Body of the loop of lines 51-62. *)
Definition customer_body (agent1 agent2 : Doc) (i : nat) (customers : list Obj)
  : M (list Obj) :=
  n ← name;
  let owner := pick_agent agent1 agent2 i in
  c ← rand companies;
  e ← email n;
  p ← phone;
  mret (customers ++ [[("name", VStr n);
                       ("company", js c);
                       ("email", VStr e);
                       ("phone", VStr p);
                       ("owner", owner);
                       ("tags", VArr [VStr "vip"])]]).

(** Line 69: the record a task is related to, as a [{type, id}] pair. *)
Definition related_of (insertedCustomers : list Doc) (i : nat)
  : M (string * Value) :=
  if Nat.eqb (i mod 2) 0 then
    l ← findOne Lead;
    id ← id_of "null" l;
    mret ("Lead", id)
  else
    id ← id_of "undefined"
           (insertedCustomers !! (i mod length insertedCustomers)%nat);
    mret ("Customer", id).

(** Body of the loop of lines 67-80. *)
Definition task_body (agent1 agent2 : Doc) (insertedCustomers : list Doc)
    (i : nat) (tasks : list Obj) : M (list Obj) :=
  let owner := pick_agent agent1 agent2 i in
  related ← related_of insertedCustomers i;
  t ← now;
  let due := VDate (t + (Z.of_nat i - 3) * 24 * 60 * 60 * 1000) in
  st ← rand task_statuses;
  pr ← rand priorities;
  mret (tasks ++ [[("title", VStr ("Follow up " +:+ pretty (i + 1)%nat));
                   ("dueDate", due);
                   ("status", js st);
                   ("priority", js pr);
                   ("relatedType", VStr related.1);
                   ("relatedId", related.2);
                   ("owner", owner)]]).

(** Lines 22-84 of the script, up to and including the disconnection. *)
Definition seed : M unit :=
  connectDB;;
  deleteMany User;; deleteMany Lead;; deleteMany Customer;; deleteMany Task;;
  admin ← create User [("name", VStr "Admin User");
                       ("email", VStr "admin@crm.com");
                       ("password", VStr "Admin@123");
                       ("role", VStr "admin")];
  agent1 ← create User [("name", VStr "Agent One");
                        ("email", VStr "agent1@crm.com");
                        ("password", VStr "Agent@123");
                        ("role", VStr "agent")];
  agent2 ← create User [("name", VStr "Agent Two");
                        ("email", VStr "agent2@crm.com");
                        ("password", VStr "Agent@123");
                        ("role", VStr "agent")];
  leads ← for_loop (lead_body agent1 agent2) 0 10 [];
  insertMany Lead leads;;
  customers ← for_loop (customer_body agent1 agent2) 0 5 [];
  insertedCustomers ← insertMany Customer customers;
  tasks ← for_loop (task_body agent1 agent2 insertedCustomers) 0 8 [];
  insertMany Task tasks;;
  log (VStr "✅ Seed complete");;
  disconnect.

(** The whole script: exit code 0 after [seed], or the [catch] handler of
    line 86, which logs the error, disconnects and exits with code 1. *)
Definition main (w : World) : Z * World :=
  match seed w with
  | (Ok _, w1) => (0, w1)
  | (Throw e, w1) =>
      match (log e;; disconnect) w1 with
      | (_, w2) => (1, w2)
      end
  end.

End Script.

End Seed.

(** ** src/routes/auth.js *)

Module AuthRoutes.

(** The request methods.  [OTHER] gathers the methods the application
    registers no route for and Express treats like any other (TRACE,
    CONNECT, ...); [name] is the method as sent. *)
Inductive Method : Type :=
| GET | HEAD | POST | PUT | PATCH | DELETE | OPTIONS
| OTHER (name : string).

(** The part of an Express request the router and the middleware look at.
    [path] is the path of the URL (no query string) relative to the mount
    point of the router, as a sequence of bytes, percent-escapes not
    decoded; [user] is [req.user], [undefined] until a middleware sets
    it. *)
Record Request : Type := mkRequest {
  method : Method;
  path : string;
  authorization : option string;
  body : Value;
  user : Value
}.

(** [res.status(code).json(payload)], or [res.send(text)] with a string for
    payload. *)
Record Response : Type := mkResponse {
  status : Z;
  json : Value
}.

(** What a handler does with a request: pass it on with [next()], answer
    it, or hand an error to [next(err)]. *)
Inductive Outcome : Type :=
| Next (req : Request)
| Respond (res : Response)
| Fail (e : Value).

(** The handlers the router mounts, by the names the file gives them:
    [auth], [requireRole(...roles)], [rules.<r>] and [ctrl.<c>]. *)
Inductive Handler : Type :=
| auth
| requireRole (roles : list string)
| rules (r : string)
| ctrl (c : string).

Record Route : Type := mkRoute {
  route_method : Method;
  route_path : string;
  stack : list Handler
}.

Definition router_post (p : string) (hs : list Handler) : Route :=
  mkRoute POST p hs.
Definition router_get (p : string) (hs : list Handler) : Route :=
  mkRoute GET p hs.
Definition router_patch (p : string) (hs : list Handler) : Route :=
  mkRoute PATCH p hs.
Definition router_delete (p : string) (hs : list Handler) : Route :=
  mkRoute DELETE p hs.

(** Lines 6-14: the routes in the order they are registered. *)
Definition router : list Route :=
  [ router_post "/register"
      [auth; requireRole ["admin"]; rules "register"; ctrl "register"];
    router_post "/login" [rules "login"; ctrl "login"];
    router_post "/refresh" [rules "refresh"; ctrl "refresh"];
    router_post "/logout" [ctrl "logout"];
    router_get "/users" [auth; requireRole ["admin"]; ctrl "listUsers"];
    router_patch "/users/:id"
      [auth; requireRole ["admin"]; ctrl "updateUser"];
    router_delete "/users/:id"
      [auth; requireRole ["admin"]; ctrl "deleteUser"] ].

(** *** How Express matches a path against the pattern of a route

    Express turns the pattern of a route into a regular expression:
    ['/users/:id'] becomes [/^\/users\/(?:([^\/]+?))\/?$/i].  The path has
    to start with a slash and to consist of as many pieces as the pattern;
    one slash more at the end is allowed, an empty piece is not. *)

Definition slash : ascii := "/"%char.
Definition colon : ascii := ":"%char.
Definition percent : ascii := "%"%char.

(** The pieces of a string between its slashes, empty pieces included:
    ["/a//b/"] has five pieces, of which only the second, ["a"], and the
    fourth, ["b"], are not empty. *)
Fixpoint split_slash (s : string) : list string :=
  match s with
  | EmptyString => [EmptyString]
  | String c s' =>
      if Ascii.eqb c slash then EmptyString :: split_slash s'
      else
        match split_slash s' with
        | piece :: pieces => String c piece :: pieces
        | [] => [String c EmptyString]
        end
  end.

(** The optional slash at the end of a path leaves an empty last piece. *)
Fixpoint drop_last_empty (pieces : list string) : list string :=
  match pieces with
  | [] => []
  | piece :: pieces' =>
      match pieces' with
      | [] => if String.eqb piece EmptyString then [] else [piece]
      | _ :: _ => piece :: drop_last_empty pieces'
      end
  end.

(** The pieces of a path after its leading slash; [None] when the path
    does not start with a slash. *)
Definition path_segments (p : string) : option (list string) :=
  match split_slash p with
  | piece :: pieces =>
      if String.eqb piece EmptyString then Some (drop_last_empty pieces)
      else None
  | [] => None
  end.

(** The pieces of the pattern of a route. *)
Definition segments (pattern : string) : list string :=
  default [] (path_segments pattern).

Definition is_param (pat : string) : bool :=
  match pat with
  | String c _ => Ascii.eqb c colon
  | EmptyString => false
  end.

(** A [:param] piece matches any piece that is not empty.  Any other piece
    of a pattern matches the pieces that read the same when letter case is
    ignored (routers are case-insensitive unless told otherwise); the
    patterns are ASCII text, for which the flag [i] of a regular expression
    identifies the two cases of the letters A-Z and nothing else. *)
Definition segment_matches (pat seg : string) : bool :=
  if is_param pat then negb (String.eqb seg EmptyString)
  else String.eqb (toLowerCase pat) (toLowerCase seg).

Fixpoint segments_match (pats segs : list string) : bool :=
  match pats, segs with
  | [], [] => true
  | p :: pats', s :: segs' => segment_matches p s && segments_match pats' segs'
  | _, _ => false
  end.

(** *** [decodeURIComponent]

    Express decodes the value of every [:param] with [decodeURIComponent],
    which throws a URIError when a [%] is not followed by two hexadecimal
    digits, or when the escaped bytes above 127 are not the UTF-8 encoding
    of a code point. *)

Definition hex_digit (c : ascii) : option Z :=
  let n := Z.of_nat (nat_of_ascii c) in
  if (48 <=? n) && (n <=? 57) then Some (n - 48)
  else if (65 <=? n) && (n <=? 70) then Some (n - 55)
  else if (97 <=? n) && (n <=? 102) then Some (n - 87)
  else None.

(** Where the decoder stands: between two characters, or inside the
    encoding of a code point, with [more] escaped bytes still to come, the
    next of which lies between [lo] and [hi]. *)
Inductive Utf8State : Type :=
| Between
| Inside (more : nat) (lo hi : Z).

(** What an escaped byte [b] does to the state; [None] when the byte
    cannot stand there in UTF-8 (which leaves out the encodings that are
    longer than needed, the surrogates and what lies beyond U+10FFFF). *)
Definition utf8_step (st : Utf8State) (b : Z) : option Utf8State :=
  match st with
  | Between =>
      if b <? 128 then Some Between
      else if b <? 194 then None                          (* 0x80 to 0xC1 *)
      else if b <? 224 then Some (Inside 1 128 191)       (* 0xC2 to 0xDF *)
      else if b =? 224 then Some (Inside 2 160 191)       (* 0xE0 *)
      else if b =? 237 then Some (Inside 2 128 159)       (* 0xED *)
      else if b <? 240 then Some (Inside 2 128 191)       (* 0xE1 to 0xEF *)
      else if b =? 240 then Some (Inside 3 144 191)       (* 0xF0 *)
      else if b <? 244 then Some (Inside 3 128 191)       (* 0xF1 to 0xF3 *)
      else if b =? 244 then Some (Inside 3 128 143)       (* 0xF4 *)
      else None                                           (* 0xF5 to 0xFF *)
  | Inside more lo hi =>
      if (lo <=? b) && (b <=? hi) then
        match more with
        | S (S more') => Some (Inside (S more') 128 191)
        | _ => Some Between
        end
      else None
  end.

Fixpoint decodes (st : Utf8State) (s : string) : bool :=
  match s with
  | EmptyString => match st with Between => true | Inside _ _ _ => false end
  | String c s1 =>
      if Ascii.eqb c percent then
        match s1 with
        | String a (String b s2) =>
            match hex_digit a, hex_digit b with
            | Some x, Some y =>
                match utf8_step st (16 * x + y) with
                | Some st' => decodes st' s2
                | None => false
                end
            | _, _ => false
            end
        | _ => false
        end
      else
        match st with
        | Between => decodes Between s1
        | Inside _ _ _ => false
        end
  end.

(** An unescaped character stands for itself, and may not interrupt the
    encoding of a code point.  [decodable s] tells that
    [decodeURIComponent(s)] returns. *)
Definition decodable (s : string) : bool := decodes Between s.

(** The first piece under a [:param] that cannot be decoded. *)
Fixpoint undecodable (pats segs : list string) : option string :=
  match pats, segs with
  | p :: pats', s :: segs' =>
      if is_param p && negb (decodable s) then Some s
      else undecodable pats' segs'
  | _, _ => None
  end.

(** What matching a path against a pattern comes to: the regular expression
    does not match; it matches and the parameters are decoded; or it matches
    and the decoding of a parameter throws. *)
Inductive PathMatch : Type :=
| NoMatch
| Matched
| Malformed (seg : string).

Definition path_match (pattern p : string) : PathMatch :=
  match path_segments p with
  | None => NoMatch
  | Some segs =>
      if segments_match (segments pattern) segs then
        match undecodable (segments pattern) segs with
        | Some seg => Malformed seg
        | None => Matched
        end
      else NoMatch
  end.

Definition method_eqb (a b : Method) : bool :=
  match a, b with
  | GET, GET | HEAD, HEAD | POST, POST | PUT, PUT | PATCH, PATCH
  | DELETE, DELETE | OPTIONS, OPTIONS => true
  | _, _ => false
  end.

(** A route answers its own method; a [get] route also answers HEAD. *)
Definition handles_method (r : Route) (m : Method) : bool :=
  method_eqb (route_method r) m
  || (method_eqb m HEAD && method_eqb (route_method r) GET).

(** The path fits the pattern of the route, its parameters can be decoded,
    and the route answers the method of the request. *)
Definition matches (r : Route) (req : Request) : bool :=
  handles_method r (method req)
  && match path_match (route_path r) (path req) with
     | Matched => true
     | _ => false
     end.

(** The error Express makes of a parameter that cannot be decoded; the
    error handler answers it with its [status]. *)
Definition URIError (seg : string) : Value :=
  VObj [("name", VStr "URIError");
        ("message", VStr ("Failed to decode param '" +:+ seg +:+ "'"));
        ("status", VNum 400);
        ("statusCode", VNum 400)].

(** *** The automatic answer to OPTIONS *)

Definition method_name (m : Method) : string :=
  match m with
  | GET => "GET" | HEAD => "HEAD" | POST => "POST" | PUT => "PUT"
  | PATCH => "PATCH" | DELETE => "DELETE" | OPTIONS => "OPTIONS"
  | OTHER name => name
  end.

(** The methods a route lists for OPTIONS. *)
Definition route_options (r : Route) : list string :=
  match route_method r with
  | GET => ["GET"; "HEAD"]
  | m => [method_name m]
  end.

(** The methods gathered so far, with those of one more route. *)
Fixpoint append_methods (allow ms : list string) : list string :=
  match ms with
  | [] => allow
  | m :: ms' =>
      append_methods
        (if existsb (String.eqb m) allow then allow else allow ++ [m]) ms'
  end.

Fixpoint join_commas (l : list string) : string :=
  match l with
  | [] => EmptyString
  | [m] => m
  | m :: l' => m +:+ "," +:+ join_commas l'
  end.

(** The answer lists the methods in its body (and in its [Allow]
    header). *)
Definition options_response (allow : list string) : Response :=
  mkResponse 200 (VStr (join_commas allow)).

Definition set_user (u : Value) (req : Request) : Request :=
  mkRequest (method req) (path req) (authorization req) (body req) u.

Fixpoint strip_prefix (p s : string) : option string :=
  match p with
  | EmptyString => Some s
  | String a p' =>
      match s with
      | String b s' => if Ascii.eqb a b then strip_prefix p' s' else None
      | EmptyString => None
      end
  end.

(** The token of an [Authorization: Bearer <token>] header. *)
Definition bearer (req : Request) : option string :=
  h ← authorization req; strip_prefix "Bearer " h.

Definition message (m : string) : Value := VObj [("message", VStr m)].

Section Handlers.

(** [jwt.verify] with the access secret: the claims of a token whose
    signature and expiry are good, [None] otherwise. *)
Variable verify : string -> option Obj.

(** The validation chains of [utils/validation.js] and the controllers of
    [controllers/authController.js] are not among the sources; they may do
    anything with the request. *)
Variable validate : string -> Request -> Outcome.
Variable controller : string -> Request -> Outcome.

(** The identity carried by a request: the claims of its bearer token. *)
Definition identity (req : Request) : option Obj := bearer req ≫= verify.

(** Modelled from the spec: [auth] of [middleware/auth.js], which is not
    among the sources (spec section 4.2): it verifies the bearer access
    token, attaches the decoded identity [{id, role, name}] to the request
    and fails with Unauthorized (401) if the token is absent or invalid. *)
Definition auth_middleware (req : Request) : Outcome :=
  match identity req with
  | Some claims =>
      Next (set_user (VObj [("id", prop "id" claims);
                            ("role", prop "role" claims);
                            ("name", prop "name" claims)]) req)
  | None => Respond (mkResponse 401 (message "Unauthorized"))
  end.

(** [roles.includes(v)] *)
Definition includes (roles : list string) (v : Value) : bool :=
  match v with
  | VStr s => existsb (String.eqb s) roles
  | _ => false
  end.

(** Modelled from the spec: [requireRole] of [middleware/auth.js] (spec
    section 4.2): the role gate fails with Forbidden (403) when the
    caller's role is not in the allowed set. *)
Definition requireRole_middleware (roles : list string) (req : Request)
  : Outcome :=
  if includes roles (member "role" (user req)) then Next req
  else Respond (mkResponse 403 (message "Forbidden")).

Definition run (h : Handler) (req : Request) : Outcome :=
  match h with
  | auth => auth_middleware req
  | requireRole roles => requireRole_middleware roles req
  | rules r => validate r req
  | ctrl c => controller c req
  end.

(** A route runs its handlers in order for as long as they call [next()].
    The second component lists the handlers that were invoked. *)
Fixpoint run_stack (hs : list Handler) (req : Request)
  : Outcome * list Handler :=
  match hs with
  | [] => (Next req, [])
  | h :: hs' =>
      match run h req with
      | Next req' =>
          let '(o, t) := run_stack hs' req' in (o, h :: t)
      | o => (o, [h])
      end
  end.

(** The router goes through its routes in registration order, looking for
    one whose pattern fits the path and which answers the method.  [err] is
    the error of the first parameter that could not be decoded: once there
    is one no route is entered, and the router ends with it.  [allow]
    gathers, for an OPTIONS request, the methods of the routes whose pattern
    fits.  A request that went through a whole stack goes on to the later
    routes.  At the end of the list an OPTIONS request for a path that some
    route knows is answered with the methods gathered; any other request
    leaves the router with [Next]. *)
Fixpoint handle (routes : list Route) (req : Request) (err : option Value)
    (allow : list string) : Outcome * list Handler :=
  match routes with
  | [] =>
      match err with
      | Some e => (Fail e, [])
      | None =>
          match method req, allow with
          | OPTIONS, _ :: _ => (Respond (options_response allow), [])
          | _, _ => (Next req, [])
          end
      end
  | r :: rs =>
      match path_match (route_path r) (path req), err with
      | NoMatch, _ => handle rs req err allow
      | Malformed seg, None => handle rs req (Some (URIError seg)) allow
      | Malformed _, Some _ => handle rs req err allow
      | Matched, Some _ => handle rs req err allow
      | Matched, None =>
          if handles_method r (method req) then
            match run_stack (stack r) req with
            | (Next req', t) =>
                let '(o, t') := handle rs req' None allow in (o, t ++ t')
            | (o, t) => (o, t)
            end
          else
            handle rs req None
              (match method req with
               | OPTIONS => append_methods allow (route_options r)
               | _ => allow
               end)
      end
  end.

(** [router.handle(req, res, next)] *)
Definition dispatch (routes : list Route) (req : Request)
  : Outcome * list Handler :=
  handle routes req None [].

Definition is_ctrl (h : Handler) : bool :=
  match h with ctrl _ => true | _ => false end.

(** No controller was invoked. *)
Definition no_controller (t : list Handler) : bool :=
  forallb (fun h => negb (is_ctrl h)) t.

End Handlers.

End AuthRoutes.

(** ** The other routers of the API *)

Module Api.

Import AuthRoutes.

(** Modelled from the spec: the routers of [routes/leads.js],
    [routes/customers.js], [routes/tasks.js], [routes/dashboard.js] and
    [routes/activity.js], which are not among the sources.  Their routes
    are those of the API surface the README lists; every one of them is
    bearer-token authenticated (spec section 6), and reassigning a lead is
    admin-only (spec section 4.3).  What comes after the middleware in a
    stack (validation rules, the controller) is gathered under the name of
    the controller. *)
Definition leads_router : list Route :=
  [ router_get "/" [auth; ctrl "listLeads"];
    router_get "/:id" [auth; ctrl "getLead"];
    router_post "/" [auth; ctrl "createLead"];
    router_patch "/:id" [auth; ctrl "updateLead"];
    router_delete "/:id" [auth; ctrl "deleteLead"];
    router_post "/:id/convert" [auth; ctrl "convertLead"];
    router_post "/:id/reassign"
      [auth; requireRole ["admin"]; ctrl "reassignLead"] ].

Definition customers_router : list Route :=
  [ router_get "/" [auth; ctrl "listCustomers"];
    router_get "/:id" [auth; ctrl "getCustomer"];
    router_post "/" [auth; ctrl "createCustomer"];
    router_patch "/:id" [auth; ctrl "updateCustomer"];
    router_post "/:id/notes" [auth; ctrl "addNote"] ].

Definition tasks_router : list Route :=
  [ router_get "/" [auth; ctrl "listTasks"];
    router_post "/" [auth; ctrl "createTask"];
    router_patch "/:id" [auth; ctrl "updateTask"] ].

Definition dashboard_router : list Route :=
  [ router_get "/" [auth; ctrl "dashboard"] ].

Definition activity_router : list Route :=
  [ router_get "/" [auth; ctrl "activity"] ].

(** The routers of the API under their mount points ([src/app.js], as the
    README describes it); the first is the router of [routes/auth.js]. *)
Definition api : list (string * list Route) :=
  [ ("/api/auth", router);
    ("/api/leads", leads_router);
    ("/api/customers", customers_router);
    ("/api/tasks", tasks_router);
    ("/api/dashboard", dashboard_router);
    ("/api/activity", activity_router) ].

End Api.

(** ** The login operation of the auth service *)

Module AuthService.

Import AuthRoutes.

Section Login.

(** bcrypt's comparison of a password with a stored hash. *)
Variable bcrypt_compare : string -> string -> bool.

(** The primitives of a JSON Web Token: the base64url encoding of a JSON
    value and the keyed signature of the signing input. *)
Variable base64url : Value -> string.
Variable hmac : string -> string -> string.

(** The two signing secrets and expiries of the environment. *)
Variable access_secret refresh_secret : string.
Variable access_ttl refresh_ttl : Z.

(** [jwt.sign(payload, secret, {expiresIn})] at time [now]: header, claims
    and signature, joined by dots. *)
Definition jwt_sign (secret : string) (ttl now : Z) (payload : Obj) : string :=
  let header := VObj [("alg", VStr "HS256"); ("typ", VStr "JWT")] in
  let claims := VObj (payload ++ [("iat", VNum now); ("exp", VNum (now + ttl))]) in
  let signing_input := base64url header +:+ "." +:+ base64url claims in
  signing_input +:+ "." +:+ hmac secret signing_input.

Definition has_email (email : string) (u : Doc) : bool :=
  match prop "email" u with
  | VStr e => String.eqb e email
  | _ => false
  end.

Definition InvalidCredentials : Response :=
  mkResponse 401 (message "Invalid credentials").

(** An account is inactive once its active flag has been turned off (spec
    section 3: the flag is what the admin-only update and delete change;
    glossary: a soft delete marks the record inactive). *)
Definition inactive (u : Doc) : bool :=
  match prop "isActive" u with
  | VBool false => true
  | _ => false
  end.

(** Modelled from the spec: the login operation behind [ctrl.login] of
    [controllers/authController.js], which is not among the sources (spec
    section 4.1): [login(email, password) -> {accessToken, refreshToken,
    user}] fails with InvalidCredentials on mismatch or inactive account;
    access tokens are signed claims containing [{id, role, name}], refresh
    tokens are signed with a separate secret. *)
Definition login (now : Z) (email password : string) (d : Db) : Response :=
  match find (has_email email) (users d) with
  | None => InvalidCredentials
  | Some u =>
      match prop "password" u with
      | VStr hash =>
          if bcrypt_compare password hash && negb (inactive u) then
            mkResponse 200
              (VObj [("accessToken",
                      VStr (jwt_sign access_secret access_ttl now
                              [("id", _id u); ("role", prop "role" u);
                               ("name", prop "name" u)]));
                     ("refreshToken",
                      VStr (jwt_sign refresh_secret refresh_ttl now
                              [("id", _id u)]));
                     ("user",
                      VObj [("id", _id u); ("name", prop "name" u);
                            ("email", prop "email" u);
                            ("role", prop "role" u)])])
          else InvalidCredentials
      | _ => InvalidCredentials
      end
  end.

(** [ctrl.login]: the operation applied to the [email] and [password] of
    the body of the request, at time [now] and on the database [d].  A body
    that validation has let through holds both as strings; without them
    there is nothing to compare, which is a mismatch. *)
Definition login_controller (now : Z) (d : Db) (req : Request) : Outcome :=
  match member "email" (body req), member "password" (body req) with
  | VStr email, VStr password => Respond (login now email password d)
  | _, _ => Respond InvalidCredentials
  end.

(** The controllers of the auth router, [ctrl.login] being the one above
    and the others any. *)
Definition controllers (others : string -> Request -> Outcome) (now : Z)
    (d : Db) (c : string) (req : Request) : Outcome :=
  if String.eqb c "login" then login_controller now d req else others c req.

End Login.

(** A non-empty string property of a JSON body. *)
Definition non_empty_string (v : Value) : bool :=
  match v with
  | VStr s => negb (String.eqb s EmptyString)
  | _ => false
  end.

End AuthService.

(** ** The convert action of the lead controller *)

Module LeadController.

(** [ObjectId.equals] *)
Definition id_eqb (a b : Value) : bool :=
  match a, b with
  | VId x, VId y => Nat.eqb x y
  | _, _ => false
  end.

Definition is_admin (caller : Obj) : bool :=
  match prop "role" caller with
  | VStr r => String.eqb r "admin"
  | _ => false
  end.

(** Modelled from the spec: the ownership filter of the controllers (spec
    section 4.2): agents are constrained to the records whose
    [assignedAgent] equals the caller's id; admins are unconstrained. *)
Definition visible (caller : Obj) (lead : Doc) : bool :=
  is_admin caller || id_eqb (prop "assignedAgent" lead) (prop "id" caller).

(** The lead a detail query selects: the one with the given id, if the
    caller may see it. *)
Definition selects (caller : Obj) (leadId : Value) (l : Doc) : bool :=
  id_eqb (_id l) leadId && visible caller l.

Definition find_lead (caller : Obj) (leadId : Value) (d : Db) : option Doc :=
  find (selects caller leadId) (leads d).

(** The [history] array of a lead. *)
Definition history (lead : Doc) : list Value :=
  match prop "history" lead with
  | VArr h => h
  | _ => []
  end.

Definition ClosedWon : Value := VStr "Closed Won".

Section Convert.

Variable bcrypt_hash : string -> string.

(** First write: the Customer, made from the fields of the Lead.  (The
    spec fixes which records are written, not the wording of the history
    and activity entries below.) *)
Definition create_customer (lead : Doc) (d : Db) : Result Doc * Db :=
  insert_one bcrypt_hash Customer
    [("name", prop "name" lead);
     ("email", prop "email" lead);
     ("phone", prop "phone" lead);
     ("owner", prop "assignedAgent" lead)] d.

(** Second write: the Lead is closed and its history extended. *)
Definition close_lead (caller : Obj) (customer : Doc) (lead : Doc) : Doc :=
  set_prop "history"
    (VArr (history lead ++
           [VObj [("action", VStr "converted");
                  ("by", prop "id" caller);
                  ("customer", _id customer)]]))
    (set_prop "status" ClosedWon lead).

Definition update_lead (leadId : Value) (f : Doc -> Doc) (d : Db) : Db :=
  set_docs Lead
    (map (fun l => if id_eqb (_id l) leadId then f l else l) (leads d)) d.

(** Third write: the Activity entry. *)
Definition log_activity (caller : Obj) (leadId : Value) (customer : Doc)
    (d : Db) : Result Doc * Db :=
  insert_one bcrypt_hash Activity
    [("type", VStr "lead_converted");
     ("actor", prop "id" caller);
     ("entityType", VStr "Lead");
     ("entityId", leadId);
     ("message", VStr "Lead converted to customer");
     ("meta", VObj [("customerId", _id customer)])] d.

(** Modelled from the spec: [convert] of [controllers/leadController.js],
    which is not among the sources (spec section 4.3): it creates a
    Customer from the Lead's fields, sets the Lead's status to Closed Won
    and appends a history entry and an Activity entry; a lead already
    Closed Won is not rejected (spec sections 4.3 and 9).  A lead the
    caller cannot see is NotFound. *)
Definition convert (caller : Obj) (leadId : Value) (d : Db)
  : Result Doc * Db :=
  match find_lead caller leadId d with
  | None => (Throw (error "NotFound" "Lead not found"), d)
  | Some lead =>
      match create_customer lead d with
      | (Throw e, d1) => (Throw e, d1)
      | (Ok customer, d1) =>
          let d2 := update_lead leadId (close_lead caller customer) d1 in
          match log_activity caller leadId customer d2 with
          | (Throw e, d3) => (Throw e, d3)
          | (Ok _, d3) => (Ok customer, d3)
          end
      end
  end.

(** [n] conversions of the same lead, one after the other; the customers
    created are returned in order.  The run stops at the first failure. *)
Fixpoint convert_times (n : nat) (caller : Obj) (leadId : Value) (d : Db)
  : Result (list Doc) * Db :=
  match n with
  | O => (Ok [], d)
  | S n' =>
      match convert caller leadId d with
      | (Throw e, d1) => (Throw e, d1)
      | (Ok c, d1) =>
          match convert_times n' caller leadId d1 with
          | (Throw e, d2) => (Throw e, d2)
          | (Ok cs, d2) => (Ok (c :: cs), d2)
          end
      end
  end.

End Convert.

End LeadController.

(** ** The overdue property of a task *)

Module TaskController.



End TaskController.

(** ** pages/login.js *)

Module LoginPage.

(** What [onSubmit] can change in the browser: local storage, the routes
    pushed to the Next.js router, and the alerts shown. *)
Record Client : Type := mkClient {
  localStorage : gmap string string;
  pushed : list string;
  alerts : list Value
}.

(** How an awaited call completes.  [login] awaits the HTTP client, and
    what it throws is an error object: a failed request carries the
    server's answer in [e.response]. *)
Inductive Completion : Type :=
| Resolves (r : Value)
| Rejects (e : Obj).

Section OnSubmit.

(** [login] of [context/AuthContext.js], which is not among the sources:
    it may resolve or reject, and may change the client on its own. *)
Variable login : Value -> Value -> Client -> Completion * Client.

(** The string a value is stored as ([String(v)]). *)
Variable to_string : Value -> string.

(** [localStorage.setItem(k, v)] *)
Definition setItem (k : string) (v : Value) (c : Client) : Client :=
  mkClient (<[k := to_string v]> (localStorage c)) (pushed c) (alerts c).

(** [router.push(url)] *)
Definition push (url : string) (c : Client) : Client :=
  mkClient (localStorage c) (pushed c ++ [url]) (alerts c).

(** [alert(v)] *)
Definition alert (v : Value) (c : Client) : Client :=
  mkClient (localStorage c) (pushed c) (alerts c ++ [v]).

(** Lines 14-16, the [catch] block:
    [alert(e.response?.data?.message || 'Login failed')]. *)
Definition on_error (e : Obj) (c : Client) : Client :=
  alert (or_else (opt_member "message" (opt_member "data" (prop "response" e)))
                 (VStr "Login failed")) c.

(** Lines 9-17.  Reading [r.refreshToken] off a [null] or [undefined]
    result throws a TypeError inside the [try] block. *)
Definition onSubmit (d : Obj) (c : Client) : Client :=
  match login (prop "email" d) (prop "password" d) c with
  | (Resolves r, c1) =>
      if nullish r then
        on_error
          (error_obj "TypeError"
             ("Cannot read properties of " +:+
              (match r with VNull => "null" | _ => "undefined" end) +:+
              " (reading 'refreshToken')"))
          c1
      else
        let c2 :=
          if truthy (member "refreshToken" r)
          then setItem "crm_refresh" (member "refreshToken" r) c1
          else c1 in
        push "/" c2
  | (Rejects e, c1) => on_error e c1
  end.

End OnSubmit.

End LoginPage.

(** * Part II: vocabulary of the properties *)

Module SeedSpec.

Import Seed.

(** Total correctness of a computation from a given world: it completes
    without throwing, and its result and final world satisfy [Q]. *)
Definition returns {A : Type} (m : M A) (w : World) (Q : A -> World -> Prop)
  : Prop :=
  exists a w', m w = (Ok a, w') /\ Q a w'.

(** The documents [insertMany] makes of a list of objects, the first fresh
    ObjectId being [n]. *)
Fixpoint with_ids (n : nat) (os : list Obj) : list Doc :=
  match os with
  | [] => []
  | o :: os' => (("_id", VId n) :: o) :: with_ids (S n) os'
  end.

Definition one_of (a1 a2 v : Value) : Prop := v = a1 \/ v = a2.

(** The objects pushed by the three loops. *)
Definition lead_obj (a1 a2 : Value) (o : Obj) : Prop :=
  exists n e p st src ag,
    o = [("name", VStr n); ("email", VStr e); ("phone", VStr p);
         ("status", VStr st); ("source", VStr src); ("assignedAgent", ag);
         ("history", VArr [VObj [("action", VStr "seeded")]])]
    /\ st ∈ statuses /\ src ∈ sources /\ one_of a1 a2 ag.

Definition customer_obj (a1 a2 : Value) (o : Obj) : Prop :=
  exists n c e p ow,
    o = [("name", VStr n); ("company", VStr c); ("email", VStr e);
         ("phone", VStr p); ("owner", ow); ("tags", VArr [VStr "vip"])]
    /\ c ∈ companies /\ one_of a1 a2 ow.

(** [rid] is the id of a document of the collection named by [ty]. *)
Definition refers_to (d : Db) (ty : string) (rid : Value) : Prop :=
  (ty = "Lead" /\ exists l, l ∈ leads d /\ _id l = rid)
  \/ (ty = "Customer" /\ exists c, c ∈ customers d /\ _id c = rid).

Definition task_obj (d : Db) (a1 a2 : Value) (o : Obj) : Prop :=
  exists title due st pr ty rid ow,
    o = [("title", VStr title); ("dueDate", VDate due); ("status", VStr st);
         ("priority", VStr pr); ("relatedType", VStr ty); ("relatedId", rid);
         ("owner", ow)]
    /\ st ∈ task_statuses /\ pr ∈ priorities
    /\ refers_to d ty rid /\ one_of a1 a2 ow.

(** A stored document: an object with its ObjectId in front. *)
Definition stored (P : Obj -> Prop) (doc : Doc) : Prop :=
  exists j o, doc = ("_id", VId j) :: o /\ P o.

Definition user_doc (h : string -> string) (i : nat)
    (name email password role : string) : Doc :=
  [("_id", VId i); ("name", VStr name); ("email", VStr email);
   ("password", VStr (h password)); ("role", VStr role)].

(** The database a run of the script leaves behind, when the first fresh
    ObjectId was [i0]. *)
Record seeded (h : string -> string) (i0 : nat) (d : Db) : Prop := mk_seeded {
  seeded_users :
    users d =
      [user_doc h i0 "Admin User" "admin@crm.com" "Admin@123" "admin";
       user_doc h (S i0) "Agent One" "agent1@crm.com" "Agent@123" "agent";
       user_doc h (S (S i0)) "Agent Two" "agent2@crm.com" "Agent@123" "agent"];
  seeded_leads :
    length (leads d) = 10%nat /\
    Forall (stored (lead_obj (VId (S i0)) (VId (S (S i0))))) (leads d);
  seeded_customers :
    length (customers d) = 5%nat /\
    Forall (stored (customer_obj (VId (S i0)) (VId (S (S i0))))) (customers d);
  seeded_tasks :
    length (tasks d) = 8%nat /\
    Forall (stored (task_obj d (VId (S i0)) (VId (S (S i0))))) (tasks d)
}.

(** [doc.role] as a string. *)
Definition has_role (r : string) (u : Doc) : bool :=
  match prop "role" u with
  | VStr s => String.eqb s r
  | _ => false
  end.

(** An environment and a database to run the script on: the database
    already holds a user with the admin's email and a stale lead. *)
Definition sample_entropy (k : nat) : Z := Z.of_nat k * 1234567890123457 + 99.
Definition sample_clock (k : nat) : Z := 1700000000000 + Z.of_nat k.
Definition sample_hash (s : string) : string := "$2b$" +:+ s.
Definition sample_compare (password hash : string) : bool :=
  String.eqb hash (sample_hash password).
Definition sample_base64url (_ : Value) : string := "e30".
Definition sample_hmac (secret input : string) : string := secret +:+ input.
Definition sample_world : World :=
  mkWorld
    (mkDb [[("_id", VId 1); ("email", VStr "admin@crm.com")]]
          [[("_id", VId 2); ("status", VStr "Stale")]] [] [] [] 7)
    false 0 0 [].

End SeedSpec.

Module RouterSpec.

Import AuthRoutes.

Definition Unauthorized : Response := mkResponse 401 (message "Unauthorized").
Definition Forbidden : Response := mkResponse 403 (message "Forbidden").

(** The route is registered under the path [p]. *)
Definition at_path (p : string) (r : Route) : bool :=
  String.eqb (route_path r) p.

(** [/register] and the [/users] routes. *)
Definition admin_only (r : Route) : bool :=
  at_path "/register" r || at_path "/users" r || at_path "/users/:id" r.

Definition is_open (open : list string) (r : Route) : bool :=
  existsb (fun p => at_path p r) open.

(** The request is one for the route: the route answers its method and
    the pattern of the route fits its path, whether or not the parameters
    of the path can be decoded. *)
Definition fits (r : Route) (req : Request) : bool :=
  handles_method r (method req)
  && match path_match (route_path r) (path req) with
     | NoMatch => false
     | _ => true
     end.

(** Every route but those registered under the paths [open] turns down a
    request for it that carries no valid bearer token with a 401, and no
    controller runs. *)
Definition guarded_except (open : list string) : Prop :=
  forall verify validate controller req r,
    r ∈ router -> is_open open r = false ->
    fits r req = true -> identity verify req = None ->
    exists res t,
      dispatch verify validate controller router req = (Respond res, t)
      /\ status res = 401 /\ no_controller t = true.

(** The paths of the routes registered without [auth]. *)
Definition open_paths : list string := ["/login"; "/refresh"; "/logout"].

(** The routes of the API that are registered without [auth]: those of the
    router mounted at [/api/auth] under the paths above. *)
Definition open_route (mount : string) (r : Route) : bool :=
  String.eqb mount "/api/auth" && is_open open_paths r.

(** A caller whose role is not admin receives a 403 from every request for
    an admin-only route. *)
Definition always_forbidden : Prop :=
  forall verify validate controller req r claims,
    r ∈ router -> admin_only r = true -> fits r req = true ->
    identity verify req = Some claims ->
    prop "role" claims <> VStr "admin" ->
    exists res t,
      dispatch verify validate controller router req = (Respond res, t)
      /\ status res = 403.

(** A logout request without an [Authorization] header, and handlers to
    run it with: no token verifies, validation passes, controllers answer
    200. *)
Definition anonymous_logout : Request :=
  mkRequest POST "/logout" None (VObj []) VUndefined.
Definition no_token (_ : string) : option Obj := None.
Definition pass (_ : string) (req : Request) : Outcome := Next req.
Definition answer_ok (_ : string) (_ : Request) : Outcome :=
  Respond (mkResponse 200 (VObj [])).

(** An agent's token and a request of that agent for the user list. *)
Definition agent_claims : Obj :=
  [("id", VId 8); ("role", VStr "agent"); ("name", VStr "Agent One")].
Definition agent_token_only (tok : string) : option Obj :=
  if String.eqb tok "agent-token" then Some agent_claims else None.
Definition agent_lists_users : Request :=
  mkRequest GET "/users" (Some "Bearer agent-token") VUndefined VUndefined.
Definition anonymous_register : Request :=
  mkRequest POST "/register" None (VObj []) VUndefined.

(** A request of that agent to update the user [%ZZ], which is not the
    escape of anything. *)
Definition agent_updates_nobody : Request :=
  mkRequest PATCH "/users/%ZZ" (Some "Bearer agent-token") (VObj [])
    VUndefined.

(** A request without a token to delete that user. *)
Definition anonymous_deletes_nobody : Request :=
  mkRequest DELETE "/users/%ZZ" None (VObj []) VUndefined.

(** A login request for the seeded admin. *)
Definition admin_login (password : string) : Request :=
  mkRequest POST "/login" None
    (VObj [("email", VStr "admin@crm.com"); ("password", VStr password)])
    VUndefined.

End RouterSpec.

Module LeadSpec.

Import LeadController.

(** The history entries that record a conversion. *)
Definition is_conversion (e : Value) : bool :=
  match member "action" e with
  | VStr a => String.eqb a "converted"
  | _ => false
  end.

(** How many times the lead was set to Closed Won by a conversion. *)
Definition conversions (lead : Doc) : nat :=
  length (List.filter is_conversion (history lead)).




(** A database with one lead of agent 8, and that agent as the caller. *)
Definition sample_lead : Doc :=
  [("_id", VId 10); ("name", VStr "Alex Patel");
   ("email", VStr "alex.patel@mail.com"); ("phone", VStr "+917644774836");
   ("status", VStr "New"); ("source", VStr "Website");
   ("assignedAgent", VId 8);
   ("history", VArr [VObj [("action", VStr "seeded")]])].
Definition sample_db : Db := mkDb [] [sample_lead] [] [] [] 11.
Definition sample_caller : Obj :=
  [("id", VId 8); ("role", VStr "agent"); ("name", VStr "Agent One")].

End LeadSpec.

Module LoginSpec.

Import LoginPage.

(** The message the [catch] block finds in an error. *)
Definition server_message (e : Obj) : Value :=
  opt_member "message" (opt_member "data" (prop "response" e)).

(** A [login] that always rejects with a 401 of the API, a string
    conversion for strings, a form and a client. *)
Definition rejected : Obj :=
  [("response",
    VObj [("status", VNum 401);
          ("data", VObj [("message", VStr "Invalid credentials")])])].
Definition failing_login (_ _ : Value) (c : Client) : Completion * Client :=
  (Rejects rejected, c).
Definition show (v : Value) : string :=
  match v with VStr s => s | _ => EmptyString end.
Definition form : Obj :=
  [("email", VStr "admin@crm.com"); ("password", VStr "wrong")].
Definition fresh_client : Client := mkClient ∅ [] [].

End LoginSpec.

(** ** Vocabulary for the finer properties of the three files *)

Module SeedDetail.

Import Seed SeedSpec.

(** The world after [dr] more random numbers and [tk] more clock readings
    have been consumed. *)
Definition advance (dr tk : nat) (w : World) : World :=
  mkWorld (db w) (connected w) (dr + draws w) (tk + ticks w) (console w).

(** Every character of the string passes the test. *)
Fixpoint all_chars (p : ascii -> bool) (s : string) : bool :=
  match s with
  | EmptyString => true
  | String c s' => p c && all_chars p s'
  end.

Definition is_upper (c : ascii) : bool :=
  let n := nat_of_ascii c in (Nat.leb 65 n && Nat.leb n 90)%bool.

Definition not_ws (c : ascii) : bool := negb (is_ws c).
Definition not_upper (c : ascii) : bool := negb (is_upper c).

(** What [name()], [email(n)] and [phone()] can return. *)
Definition is_name (n : string) : Prop :=
  exists f l, f ∈ first /\ l ∈ last /\ n = f +:+ " " +:+ l.

Definition local_part (n : string) : string := replace_ws "." (toLowerCase n).

Definition is_email (n e : string) : Prop :=
  exists d, d ∈ domains /\ e = local_part n +:+ "@" +:+ d.

Definition is_phone (p : string) : Prop :=
  exists k, 6000000000 <= k <= 9999999999 /\ p = "+91" +:+ pretty k.

(** The agent of the [i]-th record of a loop. *)
Definition agent_at (a1 a2 : Value) (i : nat) : Value :=
  if Nat.eqb (i mod 2) 0 then a1 else a2.

(** The object pushed by iteration [i] of each loop. *)
Definition lead_at (a1 a2 : Value) (i : nat) (o : Obj) : Prop :=
  exists n e p st src,
    o = [("name", VStr n); ("email", VStr e); ("phone", VStr p);
         ("status", VStr st); ("source", VStr src);
         ("assignedAgent", agent_at a1 a2 i);
         ("history", VArr [VObj [("action", VStr "seeded")]])]
    /\ is_name n /\ is_email n e /\ is_phone p
    /\ st ∈ statuses /\ src ∈ sources.

Definition customer_at (a1 a2 : Value) (i : nat) (o : Obj) : Prop :=
  exists n c e p,
    o = [("name", VStr n); ("company", VStr c); ("email", VStr e);
         ("phone", VStr p); ("owner", agent_at a1 a2 i);
         ("tags", VArr [VStr "vip"])]
    /\ is_name n /\ is_email n e /\ is_phone p /\ c ∈ companies.

(** [reading] is what [Date.now()] returned in iteration [i]; [lead] is the
    id of the first lead and [customer k] the id of the [k]-th inserted
    customer. *)
Definition task_at (reading : Z) (lead : Value) (customer : nat -> Value)
    (a1 a2 : Value) (i : nat) (o : Obj) : Prop :=
  exists st pr,
    o = [("title", VStr ("Follow up " +:+ pretty (i + 1)%nat));
         ("dueDate", VDate (reading + (Z.of_nat i - 3) * 86400000));
         ("status", VStr st); ("priority", VStr pr);
         ("relatedType",
          VStr (if Nat.eqb (i mod 2) 0 then "Lead" else "Customer"));
         ("relatedId",
          if Nat.eqb (i mod 2) 0 then lead else customer (i mod 5)%nat);
         ("owner", agent_at a1 a2 i)]
    /\ st ∈ task_statuses /\ pr ∈ priorities.

(** The [k]-th document of a collection is the object [o] stored under the
    ObjectId [n + k]. *)
Definition stored_at (docs : list Doc) (n k : nat) (o : Obj) : Prop :=
  docs !! k = Some (("_id", VId (n + k)) :: o).

(** The state a successful run leaves behind, in full: [w] is the world the
    script starts from, [w'] the one it ends in. *)
Record seeded_in_detail (clock : nat -> Z) (h : string -> string)
    (w w' : World) : Prop := mk_seeded_in_detail {
  detail_users :
    users (db w') =
      [user_doc h (next_id (db w)) "Admin User" "admin@crm.com" "Admin@123"
         "admin";
       user_doc h (1 + next_id (db w)) "Agent One" "agent1@crm.com"
         "Agent@123" "agent";
       user_doc h (2 + next_id (db w)) "Agent Two" "agent2@crm.com"
         "Agent@123" "agent"];
  detail_leads :
    length (leads (db w')) = 10%nat /\
    forall i, (i < 10)%nat ->
      exists o, stored_at (leads (db w')) (3 + next_id (db w)) i o
                /\ lead_at (VId (1 + next_id (db w)))
                           (VId (2 + next_id (db w))) i o;
  detail_customers :
    length (customers (db w')) = 5%nat /\
    forall i, (i < 5)%nat ->
      exists o, stored_at (customers (db w')) (13 + next_id (db w)) i o
                /\ customer_at (VId (1 + next_id (db w)))
                               (VId (2 + next_id (db w))) i o;
  detail_tasks :
    length (tasks (db w')) = 8%nat /\
    forall i, (i < 8)%nat ->
      exists o, stored_at (tasks (db w')) (18 + next_id (db w)) i o
                /\ task_at (clock (i + ticks w)%nat)
                           (VId (3 + next_id (db w)))
                           (fun k => VId (13 + next_id (db w) + k))
                           (VId (1 + next_id (db w)))
                           (VId (2 + next_id (db w))) i o;
  detail_activities : activities (db w') = activities (db w);
  detail_next_id : next_id (db w') = (26 + next_id (db w))%nat;
  detail_connected : connected w' = false;
  detail_console : console w' = console w ++ [VStr "✅ Seed complete"];
  detail_draws : draws w' = (101 + draws w)%nat;
  detail_ticks : ticks w' = (8 + ticks w)%nat
}.

(** The database after [insertMany] has stored the objects [os] in the
    collection of [m] under the next ObjectIds. *)
Definition appended (m : Model) (os : list Obj) (d : Db) : Db :=
  set_docs m (docs m d ++ with_ids (next_id d) os)
    (mkDb (users d) (leads d) (customers d) (tasks d) (activities d)
          (length os + next_id d)).

(** The world [w] with other documents in the four collections the script
    empties. *)
Definition with_collections (us ls cs ts : list Doc) (w : World) : World :=
  set_db (mkDb us ls cs ts (activities (db w)) (next_id (db w))) w.

End SeedDetail.

Module RouterDetail.

Import AuthRoutes RouterSpec.


(** Every piece of the path can be decoded. *)
Definition well_formed (req : Request) : bool :=
  match path_segments (path req) with
  | Some segs => forallb decodable segs
  | None => true
  end.

(** No piece of a pattern holds a [%], and no route is registered for
    OPTIONS: this is the case of every router of the API. *)
Definition plain (c : ascii) : bool := negb (Ascii.eqb c percent).

Definition regular (rs : list Route) : bool :=
  forallb (fun r => forallb (SeedDetail.all_chars plain)
                      (segments (route_path r))
                    && negb (method_eqb (route_method r) OPTIONS)) rs.

(** Two patterns that some path may fit both: they have as many pieces,
    and where both have a literal piece the two read the same. *)
Fixpoint may_share (pats1 pats2 : list string) : bool :=
  match pats1, pats2 with
  | [], [] => true
  | p1 :: l1, p2 :: l2 =>
      (is_param p1 || is_param p2
       || String.eqb (toLowerCase p1) (toLowerCase p2))
      && may_share l1 l2
  | _, _ => false
  end.

Definition answers_head (r : Route) : bool :=
  method_eqb (route_method r) GET || method_eqb (route_method r) HEAD.

(** Two routes that some request may match both. *)
Definition overlap (r1 r2 : Route) : bool :=
  (method_eqb (route_method r1) (route_method r2)
   || (answers_head r1 && answers_head r2))
  && may_share (segments (route_path r1)) (segments (route_path r2)).


(** An admin's token and requests that carry it. *)
Definition admin_claims : Obj :=
  [("id", VId 7); ("role", VStr "admin"); ("name", VStr "Admin User");
   ("iat", VNum 1700000000)].
Definition admin_token_only (tok : string) : option Obj :=
  if String.eqb tok "admin-token" then Some admin_claims else None.
Definition admin_deletes_user : Request :=
  mkRequest DELETE "/users/9" (Some "Bearer admin-token") VUndefined
    VUndefined.
Definition put_profile : Request :=
  mkRequest PUT "/users/9" (Some "Bearer admin-token") (VObj []) VUndefined.
Definition login_attempt : Request :=
  mkRequest POST "/login" None
    (VObj [("email", VStr "admin@crm.com")]) VUndefined.

(** A validation that turns every request down with a 400. *)
Definition reject_all (_ : string) (_ : Request) : Outcome :=
  Respond (mkResponse 400 (VObj [("errors", VArr [])])).

End RouterDetail.

Module LoginDetail.

Import LoginPage LoginSpec.

(** A [login] that resolves without a result, and one that resolves with
    both tokens. *)
Definition empty_login (_ _ : Value) (c : Client) : Completion * Client :=
  (Resolves VUndefined, c).
Definition good_login (_ _ : Value) (c : Client) : Completion * Client :=
  (Resolves (VObj [("accessToken", VStr "a.b.c");
                   ("refreshToken", VStr "d.e.f")]), c).

End LoginDetail.

(** * Part III: proofs *)

(** ** Numbers *)

Section Numbers.

Import Seed.

(** Rounding moves a number by at most half a unit in the last place, to a
    multiple of that unit. *)
Lemma round53_spec x :
  two53 <= x ->
  exists sh q,
    1 <= sh /\ 2 ^ (sh + 52) <= x < 2 ^ (sh + 53)
    /\ round53 x = q * 2 ^ sh
    /\ x - 2 ^ (sh - 1) <= round53 x <= x + 2 ^ (sh - 1).
Proof.
  intros Hx. unfold round53.
  destruct (Z.ltb_spec x two53) as [Hlt | _]; [lia |].
  assert (Hpos : 0 < x) by (unfold two53 in Hx; lia).
  pose proof (Z.log2_spec x Hpos) as [Hlo Hhi].
  assert (Hlog : 53 <= Z.log2 x).
  { change 53 with (Z.log2 two53). apply Z.log2_le_mono, Hx. }
  set (sh := Z.log2 x - 52) in *.
  assert (Hsh : 1 <= sh) by lia.
  assert (Hp : 0 < 2 ^ sh) by (apply Z.pow_pos_nonneg; lia).
  assert (Hhalf : 2 ^ sh = 2 * 2 ^ (sh - 1)).
  { rewrite <- Z.pow_succ_r by lia. f_equal. lia. }
  pose proof (Z.div_mod x (2 ^ sh) ltac:(lia)) as Hdm.
  pose proof (Z.mod_pos_bound x (2 ^ sh) Hp) as Hrem.
  set (q := x / 2 ^ sh) in *. set (rem := x mod 2 ^ sh) in *.
  set (half := 2 ^ (sh - 1)) in *.
  assert (E52 : sh + 52 = Z.log2 x) by lia.
  assert (E53 : sh + 53 = Z.succ (Z.log2 x)) by lia.
  destruct ((half <? rem) || ((rem =? half) && Z.odd q)) eqn:E.
  - assert (half <= rem).
    { apply orb_true_iff in E as [E | E].
      - apply Z.ltb_lt in E. lia.
      - apply andb_prop in E as [E _]. apply Z.eqb_eq in E. lia. }
    exists sh, (q + 1). rewrite E52, E53.
    split; [lia |]. split; [lia |]. split; [reflexivity |]. lia.
  - assert (rem <= half).
    { apply orb_false_iff in E as [E _]. apply Z.ltb_ge in E. lia. }
    exists sh, q. rewrite E52, E53.
    split; [lia |]. split; [lia |]. split; [reflexivity |]. lia.
Qed.

Lemma round53_nonneg x : 0 <= x -> 0 <= round53 x.
Proof.
  intros Hx. destruct (Z.ltb_spec x two53) as [Hlt | Hge].
  - unfold round53. destruct (Z.ltb_spec x two53); lia.
  - destruct (round53_spec x Hge) as (sh & q & Hsh & Hx2 & Hr & Hlo & Hhi).
    assert (2 ^ (sh - 1) * 2 ^ 53 = 2 ^ (sh + 52)).
    { rewrite <- Z.pow_add_r by lia. f_equal. lia. }
    assert (0 < 2 ^ (sh - 1)) by (apply Z.pow_pos_nonneg; lia).
    nia.
Qed.

(** [Math.floor(Math.random() * k)] is below [k]. *)
Lemma floor_mul_bound r k :
  0 <= r < two53 -> 0 < k -> 0 <= floor_mul r k < k.
Proof.
  intros Hr Hk. unfold floor_mul.
  assert (H53 : 0 < two53) by reflexivity.
  split.
  - apply Z.div_pos; [apply round53_nonneg; nia | exact H53].
  - apply Z.div_lt_upper_bound; [exact H53 |].
    destruct (Z.ltb_spec (r * k) two53) as [Hlt | Hge].
    + unfold round53. destruct (Z.ltb_spec (r * k) two53); nia.
    + destruct (round53_spec _ Hge) as (sh & q & Hsh & Hx2 & _ & _ & Hhi).
      assert (2 ^ (sh - 1) * two53 = 2 ^ (sh + 52)).
      { unfold two53. rewrite <- Z.pow_add_r by lia. f_equal. lia. }
      assert (0 < 2 ^ (sh - 1)) by (apply Z.pow_pos_nonneg; lia).
      nia.
Qed.

(** A sum of [a] and a product below [k] that stays below [2^34]: the
    result of [Math.floor(a + Math.random() * k)] lies between [a] and
    [a + k]. *)
Lemma floor_add_mul_bounds a r k :
  0 <= r < two53 -> 0 < k -> 1 <= a -> a + k < 2 ^ 34 ->
  a <= floor_add_mul a r k <= a + k.
Proof.
  intros Hr Hk Ha Hak. unfold floor_add_mul.
  assert (H53 : 0 < two53) by reflexivity.
  assert (Hp : 0 <= round53 (r * k) <= k * two53).
  { split; [apply round53_nonneg; nia |].
    destruct (Z.ltb_spec (r * k) two53) as [Hlt | Hge].
    - unfold round53. destruct (Z.ltb_spec (r * k) two53); nia.
    - destruct (round53_spec _ Hge) as (sh & q & Hsh & Hx2 & _ & _ & Hhi).
      assert (2 ^ (sh - 1) * two53 = 2 ^ (sh + 52)).
      { unfold two53. rewrite <- Z.pow_add_r by lia. f_equal. lia. }
      assert (0 < 2 ^ (sh - 1)) by (apply Z.pow_pos_nonneg; lia).
      nia. }
  set (p := round53 (r * k)) in *.
  assert (Hge : two53 <= a * two53 + p) by nia.
  destruct (round53_spec _ Hge) as (sh & q & Hsh & Hx2 & Hq & _ & _).
  assert (Hsh53 : sh <= 53).
  { destruct (Z.le_gt_cases sh 53) as [H | H]; [exact H | exfalso].
    assert (2 ^ (34 + 53) <= 2 ^ (sh + 52)) by (apply Z.pow_le_mono_r; lia).
    assert ((a + k) * two53 < 2 ^ 34 * two53) by nia.
    change (2 ^ 34 * two53) with (2 ^ (34 + 53)) in *. nia. }
  (* the sum lies between two multiples of the unit of its result *)
  assert (Hunit : two53 = 2 ^ (53 - sh) * 2 ^ sh).
  { unfold two53. rewrite <- Z.pow_add_r by lia. f_equal. lia. }
  assert (Hu : 0 < 2 ^ sh) by (apply Z.pow_pos_nonneg; lia).
  assert (Hv : 0 < 2 ^ (53 - sh)) by (apply Z.pow_pos_nonneg; lia).
  pose proof (round53_spec _ Hge) as (sh' & q' & _ & Hx2' & Hq' & Hlo & Hhi).
  assert (sh' = sh).
  { destruct (Z.lt_trichotomy sh' sh) as [H | [H | H]]; [exfalso | exact H | exfalso].
    - assert (2 ^ (sh' + 53) <= 2 ^ (sh + 52)) by (apply Z.pow_le_mono_r; lia). lia.
    - assert (2 ^ (sh + 53) <= 2 ^ (sh' + 52)) by (apply Z.pow_le_mono_r; lia). lia. }
  subst sh'.
  assert (Hhalf : 2 ^ sh = 2 * 2 ^ (sh - 1)).
  { rewrite <- Z.pow_succ_r by lia. f_equal. lia. }
  rewrite Hq in *.
  set (u := 2 ^ sh) in *. set (v := 2 ^ (53 - sh)) in *.
  assert (Hql : a * v <= q) by nia.
  assert (Hqh : q <= (a + k) * v) by nia.
  split.
  - apply Z.div_le_lower_bound; [exact H53 |]. nia.
  - apply Z.div_le_upper_bound; [exact H53 |]. nia.
Qed.

End Numbers.

(** ** The seed script *)

Section SeedProofs.

Import Seed SeedSpec.

Variable entropy : nat -> Z.
Variable clock : nat -> Z.
Variable db_up : bool.
Variable bcrypt_hash : string -> string.

Lemma returns_ret {A} (a : A) w (Q : A -> World -> Prop) :
  Q a w -> returns (mret a) w Q.
Proof. intros H. exists a, w. split; [reflexivity | exact H]. Qed.

Lemma returns_bind {A B} (m : M A) (k : A -> M B) w (Q : B -> World -> Prop) :
  returns m w (fun a w1 => returns (k a) w1 Q) -> returns (m ≫= k) w Q.
Proof.
  intros (a & w1 & Hm & b & w2 & Hk & HQ).
  exists b, w2. split; [| exact HQ].
  unfold mbind, M_bind. rewrite Hm. exact Hk.
Qed.

Lemma returns_mono {A} (m : M A) w (Q Q' : A -> World -> Prop) :
  returns m w Q -> (forall a w', Q a w' -> Q' a w') -> returns m w Q'.
Proof. intros (a & w' & Hm & HQ) Himp. exists a, w'. eauto. Qed.

Lemma returns_eq {A} (m : M A) w a w' (Q : A -> World -> Prop) :
  m w = (Ok a, w') -> Q a w' -> returns m w Q.
Proof. intros Hm HQ. exists a, w'. auto. Qed.

(** A loop whose body pushes one object satisfying [P] and leaves the
    database alone pushes [n] such objects. *)
Lemma for_loop_push (P : Obj -> Prop) (d : Db)
    (body : nat -> list Obj -> M (list Obj)) :
  (forall i acc w, db w = d ->
     returns (body i acc) w
       (fun acc' w' => db w' = d /\ exists o, acc' = acc ++ [o] /\ P o)) ->
  forall n lo acc w, db w = d ->
    returns (for_loop body lo n acc) w
      (fun acc' w' => db w' = d /\
         exists os, acc' = acc ++ os /\ length os = n /\ Forall P os).
Proof.
  intros Hbody n. induction n as [| n IH]; intros lo acc w Hw; simpl.
  - apply returns_ret. split; [exact Hw |].
    exists []. rewrite app_nil_r. auto.
  - apply returns_bind.
    eapply returns_mono; [apply Hbody, Hw |].
    intros acc1 w1 (Hw1 & o & -> & Ho). cbv beta.
    eapply returns_mono; [apply IH, Hw1 |].
    intros acc2 w2 (Hw2 & os & -> & Hlen & Hos).
    split; [exact Hw2 |].
    exists (o :: os). rewrite <- app_assoc. simpl.
    repeat split; [congruence | constructor; assumption].
Qed.

Lemma random_returns w :
  returns (random entropy) w
    (fun r w' => db w' = db w /\ 0 <= r < two53).
Proof.
  eapply returns_eq; [reflexivity |]. split; [reflexivity |].
  apply Z.mod_pos_bound. reflexivity.
Qed.

Lemma rand_returns {A} (arr : list A) w :
  arr <> [] ->
  returns (rand entropy arr) w
    (fun o w' => db w' = db w /\ exists x, o = Some x /\ x ∈ arr).
Proof.
  intros Hne. unfold rand. apply returns_bind.
  eapply returns_mono; [apply random_returns |].
  intros r w' (Hdb & Hr). apply returns_ret. split; [exact Hdb |].
  assert (Hlen : (0 < length arr)%nat) by (destruct arr; [congruence | simpl; lia]).
  assert (Hidx : (Z.to_nat (floor_mul r (Z.of_nat (length arr))) < length arr)%nat).
  { pose proof (floor_mul_bound r (Z.of_nat (length arr)) Hr ltac:(lia)). lia. }
  destruct (lookup_lt_is_Some_2 _ _ Hidx) as [x Hx].
  exists x. split; [exact Hx |]. eapply list_elem_of_lookup_2, Hx.
Qed.

Ltac step lem :=
  apply returns_bind; eapply returns_mono; [eapply lem | cbv beta].

Lemma name_returns w :
  returns (name entropy) w (fun _ w' => db w' = db w).
Proof.
  unfold name.
  step @rand_returns; [discriminate |]. intros f w1 (H1 & _).
  step @rand_returns; [discriminate |]. intros l w2 (H2 & _).
  apply returns_ret. congruence.
Qed.

Lemma email_returns n w :
  returns (email entropy n) w (fun _ w' => db w' = db w).
Proof.
  unfold email.
  step @rand_returns; [discriminate |]. intros dm w1 (H1 & _).
  apply returns_ret. exact H1.
Qed.

Lemma phone_returns w :
  returns (phone entropy) w (fun _ w' => db w' = db w).
Proof.
  unfold phone.
  step random_returns. intros r w1 (H1 & _).
  apply returns_ret. exact H1.
Qed.

Lemma pick_agent_one_of a1 a2 i :
  one_of (_id a1) (_id a2) (pick_agent a1 a2 i).
Proof. unfold pick_agent, one_of. destruct (Nat.eqb _ _); auto. Qed.

Lemma lead_body_returns a1 a2 i acc w :
  returns (lead_body entropy a1 a2 i acc) w
    (fun acc' w' => db w' = db w /\
       exists o, acc' = acc ++ [o] /\ lead_obj (_id a1) (_id a2) o).
Proof.
  unfold lead_body.
  step name_returns. intros n w1 H1.
  step email_returns. intros e w2 H2.
  step phone_returns. intros p w3 H3.
  step @rand_returns; [discriminate |]. intros st w4 (H4 & s & -> & Hs).
  step @rand_returns; [discriminate |]. intros src w5 (H5 & c & -> & Hc).
  apply returns_ret. split; [congruence |].
  eexists. split; [reflexivity |].
  exists n, e, p, s, c, (pick_agent a1 a2 i).
  auto using pick_agent_one_of.
Qed.

Lemma customer_body_returns a1 a2 i acc w :
  returns (customer_body entropy a1 a2 i acc) w
    (fun acc' w' => db w' = db w /\
       exists o, acc' = acc ++ [o] /\ customer_obj (_id a1) (_id a2) o).
Proof.
  unfold customer_body.
  step name_returns. intros n w1 H1.
  step @rand_returns; [discriminate |]. intros co w2 (H2 & c & -> & Hc).
  step email_returns. intros e w3 H3.
  step phone_returns. intros p w4 H4.
  apply returns_ret. split; [congruence |].
  eexists. split; [reflexivity |].
  exists n, c, e, p, (pick_agent a1 a2 i).
  auto using pick_agent_one_of.
Qed.

(** The related record of a task exists, provided there is a lead and the
    customers just inserted are in the collection. *)
Lemma related_of_returns (ins : list Doc) i w :
  leads (db w) <> [] -> ins <> [] -> ins ⊆ customers (db w) ->
  returns (related_of ins i) w
    (fun r w' => db w' = db w /\ refers_to (db w) r.1 r.2).
Proof.
  intros Hleads Hins Hsub. unfold related_of.
  destruct (Nat.eqb (i mod 2) 0).
  - apply returns_bind. eapply returns_eq; [reflexivity |].
    unfold Mongo.findOne. simpl docs.
    destruct (leads (db w)) as [| l ls] eqn:El; [congruence |]. simpl.
    apply returns_bind. eapply returns_eq; [reflexivity |].
    apply returns_ret. split; [reflexivity |].
    left. split; [reflexivity |]. exists l. rewrite El. split; [left | reflexivity].
  - assert (Hlt : (i mod length ins < length ins)%nat).
    { apply Nat.mod_upper_bound. destruct ins; [congruence | simpl; lia]. }
    destruct (lookup_lt_is_Some_2 _ _ Hlt) as [c Hc]. rewrite Hc. simpl.
    apply returns_bind. eapply returns_eq; [reflexivity |].
    apply returns_ret. split; [reflexivity |].
    right. split; [reflexivity |]. exists c. split; [| reflexivity].
    apply Hsub. eapply list_elem_of_lookup_2, Hc.
Qed.

Lemma now_returns w :
  returns (now clock) w (fun _ w' => db w' = db w).
Proof. eapply returns_eq; reflexivity. Qed.

Lemma task_body_returns a1 a2 (ins : list Doc) i acc w :
  leads (db w) <> [] -> ins <> [] -> ins ⊆ customers (db w) ->
  returns (task_body entropy clock a1 a2 ins i acc) w
    (fun acc' w' => db w' = db w /\
       exists o, acc' = acc ++ [o] /\ task_obj (db w) (_id a1) (_id a2) o).
Proof.
  intros Hleads Hins Hsub. unfold task_body.
  step related_of_returns; [eassumption.. |]. intros [ty rid] w1 (H1 & Hrel).
  step now_returns. intros t w2 H2.
  step @rand_returns; [discriminate |]. intros st w3 (H3 & s & -> & Hs).
  step @rand_returns; [discriminate |]. intros pr w4 (H4 & p & -> & Hp).
  apply returns_ret. split; [congruence |].
  eexists. split; [reflexivity |].
  do 2 eexists. exists s, p, ty, rid, (pick_agent a1 a2 i).
  split; [reflexivity |]. auto using pick_agent_one_of.
Qed.


Lemma with_ids_length n os : length (with_ids n os) = length os.
Proof. revert n. induction os as [| o os IH]; intros n; simpl; auto. Qed.

Lemma with_ids_stored (P : Obj -> Prop) n os :
  Forall P os -> Forall (stored P) (with_ids n os).
Proof.
  intros H. revert n. induction H as [| o os Ho _ IH]; intros n; simpl.
  - constructor.
  - constructor; [exists n, o; auto | apply IH].
Qed.

(** Storing in a collection without a unique index: every object gets the
    next ObjectId, and the other collections are left alone. *)
Lemma save_all_plain m os d :
  m <> User ->
  exists d',
    save_all bcrypt_hash m os d = (Ok (with_ids (next_id d) os), d')
    /\ docs m d' = docs m d ++ with_ids (next_id d) os
    /\ (forall m', m' <> m -> docs m' d' = docs m' d)
    /\ next_id d' = (length os + next_id d)%nat.
Proof.
  intros Hm. revert d. induction os as [| o os IH]; intros d.
  - exists d. simpl. rewrite app_nil_r. auto.
  - set (doc := ("_id", VId (next_id d)) :: o).
    set (d1 := set_docs m (docs m (fresh_id d).2 ++ [doc]) (fresh_id d).2).
    assert (H1 : save bcrypt_hash m o d = (Ok doc, d1)).
    { unfold save. destruct m; try congruence; reflexivity. }
    destruct (IH d1) as (d2 & H2 & Hdocs & Hframe & Hnext).
    assert (Hn1 : next_id d1 = S (next_id d)) by (destruct m; reflexivity).
    exists d2. simpl save_all. rewrite H1, H2, Hn1.
    split; [reflexivity |]. split; [| split].
    + assert (Hd1 : docs m d1 = docs m d ++ [doc]) by (destruct m; reflexivity).
      rewrite Hdocs, Hn1, Hd1, <- app_assoc. reflexivity.
    + intros m' Hm'. rewrite (Hframe m' Hm').
      destruct m, m'; try congruence; reflexivity.
    + rewrite Hnext, Hn1. simpl. lia.
Qed.

Lemma insert_many_plain m os d :
  m <> User -> forallb (valid m) os = true ->
  exists d',
    insert_many bcrypt_hash m os d = (Ok (with_ids (next_id d) os), d')
    /\ docs m d' = docs m d ++ with_ids (next_id d) os
    /\ (forall m', m' <> m -> docs m' d' = docs m' d)
    /\ next_id d' = (length os + next_id d)%nat.
Proof.
  intros Hm Hv. unfold insert_many. rewrite Hv. apply save_all_plain, Hm.
Qed.

Lemma insertMany_returns m os w :
  m <> User -> forallb (valid m) os = true ->
  returns (insertMany bcrypt_hash m os) w
    (fun ds w' =>
       ds = with_ids (next_id (db w)) os
       /\ docs m (db w') = docs m (db w) ++ ds
       /\ (forall m', m' <> m -> docs m' (db w') = docs m' (db w))
       /\ next_id (db w') = (length os + next_id (db w))%nat).
Proof.
  intros Hm Hv.
  destruct (insert_many_plain m os (db w) Hm Hv) as (d' & H & H1 & H2 & H3).
  eapply returns_eq.
  - unfold insertMany. rewrite H. reflexivity.
  - simpl. auto.
Qed.

(** The schemas that are not modelled accept every object. *)
Lemma valid_others m os : m <> Lead -> forallb (valid m) os = true.
Proof.
  intros Hm. apply forallb_forall. intros o _.
  destruct m; try congruence; reflexivity.
Qed.

(** The statuses the script draws from are statuses of the Lead schema. *)
Lemma seeded_status_valid st o :
  st ∈ statuses -> prop "status" o = VStr st -> valid Lead o = true.
Proof.
  intros Hst Hp. unfold valid. rewrite Hp. unfold statuses in Hst.
  repeat (apply elem_of_cons in Hst as [-> | Hst]); try reflexivity.
  inversion Hst.
Qed.

Lemma lead_objs_valid a1 a2 os :
  Forall (lead_obj a1 a2) os -> forallb (valid Lead) os = true.
Proof.
  intros H. apply forallb_forall. intros o Ho.
  apply list_elem_of_In in Ho. rewrite Forall_forall in H.
  destruct (H o Ho) as (n & e & p & st & src & ag & -> & Hst & _).
  apply (seeded_status_valid st); [exact Hst | reflexivity].
Qed.

Lemma refers_to_ext d d' ty rid :
  leads d' = leads d -> customers d' = customers d ->
  refers_to d ty rid -> refers_to d' ty rid.
Proof. unfold refers_to. intros -> ->. auto. Qed.

Lemma task_obj_ext d d' a1 a2 o :
  leads d' = leads d -> customers d' = customers d ->
  task_obj d a1 a2 o -> task_obj d' a1 a2 o.
Proof.
  intros Hl Hc (title & due & st & pr & ty & rid & ow & -> & ? & ? & Hr & ?).
  exists title, due, st, pr, ty, rid, ow.
  eauto 6 using refers_to_ext.
Qed.

(** The script runs to its end whenever the database can be reached, and
    leaves a seeded database, whatever the database held before. *)
Lemma seed_returns w :
  db_up = true ->
  returns (seed entropy clock db_up bcrypt_hash) w
    (fun _ w' => seeded bcrypt_hash (next_id (db w)) (db w')).
Proof.
  intros Hup. unfold seed.
  apply returns_bind. eapply returns_eq.
  { unfold connectDB. rewrite Hup. reflexivity. }
  do 7 (apply returns_bind; eapply returns_eq; [reflexivity |]).
  set (i0 := next_id (db w)).
  set (adm := user_doc bcrypt_hash i0 "Admin User" "admin@crm.com" "Admin@123" "admin").
  set (a1 := user_doc bcrypt_hash (S i0) "Agent One" "agent1@crm.com" "Agent@123" "agent").
  set (a2 := user_doc bcrypt_hash (S (S i0)) "Agent Two" "agent2@crm.com" "Agent@123" "agent").
  match goal with
  | |- returns (mbind _ (for_loop (lead_body _ ?x ?y) _ _ _)) _ _ =>
      change x with a1; change y with a2
  end.
  match goal with
  | |- returns _ ?w3 _ =>
      assert (Hdb : db w3 = mkDb [adm; a1; a2] [] [] [] (activities (db w))
                                 (S (S (S i0)))) by reflexivity;
      generalize dependent w3
  end.
  intros w3 Hdb.
  (* leads *)
  apply returns_bind. eapply returns_mono.
  { apply (for_loop_push (lead_obj (_id a1) (_id a2)) (db w3)); [| reflexivity].
    intros i acc w' Hw'. eapply returns_mono; [apply lead_body_returns |].
    intros ? ? (Hd & Ho). split; [congruence | exact Ho]. }
  cbv beta. intros ? w4 (H4 & lds & -> & Hllen & Hlds).
  step insertMany_returns;
    [discriminate | exact (lead_objs_valid _ _ _ Hlds) |].
  intros ? w5 (-> & Hl5 & Hf5 & Hn5).
  (* customers *)
  apply returns_bind. eapply returns_mono.
  { apply (for_loop_push (customer_obj (_id a1) (_id a2)) (db w5)); [| reflexivity].
    intros i acc w' Hw'. eapply returns_mono; [apply customer_body_returns |].
    intros ? ? (Hd & Ho). split; [congruence | exact Ho]. }
  cbv beta. intros ? w6 (H6 & cs & -> & Hclen & Hcs).
  step insertMany_returns;
    [discriminate | apply valid_others; discriminate |].
  intros ins w7 (-> & Hc7 & Hf7 & Hn7).
  (* the collections when the tasks are built *)
  simpl docs in Hl5, Hc7.
  pose proof (Hf5 User ltac:(discriminate)) as Hu5.
  pose proof (Hf5 Customer ltac:(discriminate)) as Hc5.
  pose proof (Hf5 Task ltac:(discriminate)) as Ht5.
  pose proof (Hf7 User ltac:(discriminate)) as Hu7.
  pose proof (Hf7 Lead ltac:(discriminate)) as Hl7.
  pose proof (Hf7 Task ltac:(discriminate)) as Ht7.
  simpl docs in Hu5, Hc5, Ht5, Hu7, Hl7, Ht7.
  assert (Hleads7 : leads (db w7) = with_ids (next_id (db w4)) lds).
  { rewrite Hl7, H6, Hl5, H4, Hdb. reflexivity. }
  assert (Hcust7 : customers (db w7) = with_ids (next_id (db w6)) cs).
  { rewrite Hc7, H6, Hc5, H4, Hdb. reflexivity. }
  assert (Husers7 : users (db w7) = [adm; a1; a2]).
  { rewrite Hu7, H6, Hu5, H4, Hdb. reflexivity. }
  assert (Htasks7 : tasks (db w7) = []).
  { rewrite Ht7, H6, Ht5, H4, Hdb. reflexivity. }
  (* tasks *)
  apply returns_bind. eapply returns_mono.
  { apply (for_loop_push (task_obj (db w7) (_id a1) (_id a2)) (db w7));
      [| reflexivity].
    intros i acc w' Hw'. eapply returns_mono.
    - apply task_body_returns.
      + rewrite Hw', Hleads7. destruct lds; discriminate.
      + destruct cs; discriminate.
      + rewrite Hw', Hcust7. reflexivity.
    - cbv beta. intros ? ? (Hd & o & -> & Ho). split; [congruence |].
      exists o. split; [reflexivity |]. rewrite <- Hw'. exact Ho. }
  cbv beta. intros ? w8 (H8 & ts & -> & Htlen & Hts).
  step insertMany_returns;
    [discriminate | apply valid_others; discriminate |].
  intros ? w9 (-> & Ht9 & Hf9 & Hn9).
  apply returns_bind; eapply returns_eq; [reflexivity |].
  eapply returns_eq; [reflexivity |].
  simpl db. simpl docs in Ht9.
  pose proof (Hf9 User ltac:(discriminate)) as Hu9.
  pose proof (Hf9 Lead ltac:(discriminate)) as Hl9.
  pose proof (Hf9 Customer ltac:(discriminate)) as Hc9.
  simpl docs in Hu9, Hl9, Hc9. rewrite H8 in Hu9, Hl9, Hc9, Ht9.
  constructor.
  - rewrite Hu9. exact Husers7.
  - rewrite Hl9, Hleads7, with_ids_length.
    split; [exact Hllen | apply with_ids_stored, Hlds].
  - rewrite Hc9, Hcust7, with_ids_length.
    split; [exact Hclen | apply with_ids_stored, Hcs].
  - rewrite Ht9, Htasks7. simpl. rewrite with_ids_length.
    split; [exact Htlen |]. apply with_ids_stored.
    eapply Forall_impl; [exact Hts |].
    intros o Ho. eapply task_obj_ext; [exact Hl9 | exact Hc9 | exact Ho].
Qed.


End SeedProofs.

Section SeedFacts.

Import Seed SeedSpec.

(** The script as a whole exits with code 0 and leaves a seeded database. *)
Lemma main_seeds entropy clock bcrypt_hash w :
  exists w', main entropy clock true bcrypt_hash w = (0, w')
             /\ seeded bcrypt_hash (next_id (db w)) (db w').
Proof.
  destruct (seed_returns entropy clock true bcrypt_hash w eq_refl)
    as ([] & w' & Hrun & Hseeded).
  exists w'. unfold main. rewrite Hrun. auto.
Qed.

Lemma main_exit_code entropy clock db_up bcrypt_hash w w' :
  main entropy clock db_up bcrypt_hash w = (0, w') -> db_up = true.
Proof.
  destruct db_up; [reflexivity |]. unfold main, seed.
  cbn. discriminate.
Qed.


Lemma stored_lead a1 a2 l :
  stored (lead_obj a1 a2) l ->
  (exists s, prop "status" l = VStr s /\ s ∈ statuses)
  /\ one_of a1 a2 (prop "assignedAgent" l)
  /\ has_prop "_id" l = true.
Proof.
  intros (j & o & -> & n & e & p & st & src & ag & -> & Hst & _ & Hag).
  simpl. eauto.
Qed.

Lemma stored_customer a1 a2 c :
  stored (customer_obj a1 a2) c -> one_of a1 a2 (prop "owner" c).
Proof.
  intros (j & o & -> & n & co & e & p & ow & -> & _ & How). exact How.
Qed.

Lemma stored_task d a1 a2 t :
  stored (task_obj d a1 a2) t ->
  (exists ty, prop "relatedType" t = VStr ty
              /\ refers_to d ty (prop "relatedId" t))
  /\ one_of a1 a2 (prop "owner" t)
  /\ has_prop "overdue" t = false.
Proof.
  intros (j & o & -> & ti & due & st & pr & ty & rid & ow & -> & _ & _ & Hr & How).
  simpl. eauto.
Qed.

End SeedFacts.

Section SeedClaims.

Import Seed SeedSpec.

Variable entropy : nat -> Z.
Variable clock : nat -> Z.
Variable bcrypt_hash : string -> string.

(** C6: every Task references either a Lead or a Customer through its
    relatedType/relatedId pair.  After a run of the script each of the
    eight tasks has relatedType 'Lead' or 'Customer', and its relatedId is
    the id of a document of the collection of that name; these collections
    are those the tasks were built against, since nothing touches them
    after their insertion. *)
Theorem seed_task_relations w :
  exists w',
    main entropy clock true bcrypt_hash w = (0, w')
    /\ length (tasks (db w')) = 8%nat
    /\ forall t, t ∈ tasks (db w') ->
         exists ty, prop "relatedType" t = VStr ty
                    /\ refers_to (db w') ty (prop "relatedId" t).
Proof.
  destruct (main_seeds entropy clock bcrypt_hash w) as (w' & Hrun & Hs).
  destruct Hs as [_ _ _ [Hlen Htasks]].
  exists w'. split; [exact Hrun |]. split; [exact Hlen |].
  intros t Ht. rewrite Forall_forall in Htasks.
  destruct (stored_task _ _ _ _ (Htasks t Ht)) as (Hrel & _).
  exact Hrel.
Qed.

(** C8: every Lead, Customer and Task carries an owning user reference.
    After a run of the script the users are the admin and the two agents,
    with three different ids, and the assignedAgent of every lead, the
    owner of every customer and the owner of every task is the id of one
    of the two agents: never absent, never the admin's. *)
Theorem seed_owners w :
  exists w' adm a1 a2 i1 i2,
    main entropy clock true bcrypt_hash w = (0, w')
    /\ users (db w') = [adm; a1; a2]
    /\ has_role "admin" adm = true
    /\ has_role "agent" a1 = true /\ has_role "agent" a2 = true
    /\ _id a1 = VId i1 /\ _id a2 = VId i2
    /\ _id adm <> _id a1 /\ _id adm <> _id a2
    /\ (forall l, l ∈ leads (db w') ->
          one_of (_id a1) (_id a2) (prop "assignedAgent" l))
    /\ (forall c, c ∈ customers (db w') ->
          one_of (_id a1) (_id a2) (prop "owner" c))
    /\ (forall t, t ∈ tasks (db w') ->
          one_of (_id a1) (_id a2) (prop "owner" t)).
Proof.
  destruct (main_seeds entropy clock bcrypt_hash w) as (w' & Hrun & Hs).
  destruct Hs as [Hu [_ Hl] [_ Hc] [_ Ht]].
  rewrite Forall_forall in Hl, Hc, Ht.
  set (i0 := next_id (db w)) in *.
  do 4 eexists. exists (S i0), (S (S i0)).
  split; [exact Hrun |]. split; [exact Hu |].
  do 5 (split; [reflexivity |]).
  split; [unfold _id; simpl; intros [= H]; lia |].
  split; [unfold _id; simpl; intros [= H]; lia |].
  split; [| split].
  - intros l Hin. apply (stored_lead _ _ _ (Hl l Hin)).
  - intros c Hin. apply (stored_customer _ _ _ (Hc c Hin)).
  - intros t Hin. apply (stored_task _ _ _ _ (Ht t Hin)).
Qed.

(** C10: a successful run of the script starts by emptying the User, Lead,
    Customer and Task collections, so whatever the database held before it
    ends with exactly 3 users (one admin, two agents), 10 leads, 5
    customers and 8 tasks.  The run is successful whenever the database can
    be reached. *)
Theorem seed_counts db_up w :
  (db_up = true ->
     exists w', main entropy clock db_up bcrypt_hash w = (0, w'))
  /\ (forall w',
        main entropy clock db_up bcrypt_hash w = (0, w') ->
        map (prop "role") (users (db w'))
          = [VStr "admin"; VStr "agent"; VStr "agent"]
        /\ length (leads (db w')) = 10%nat
        /\ length (customers (db w')) = 5%nat
        /\ length (tasks (db w')) = 8%nat).
Proof.
  split.
  - intros ->.
    destruct (main_seeds entropy clock bcrypt_hash w) as (w' & Hrun & _).
    exists w'. exact Hrun.
  - intros w' Hrun.
    pose proof (main_exit_code _ _ _ _ _ _ Hrun) as ->.
    destruct (main_seeds entropy clock bcrypt_hash w) as (w'' & Hrun' & Hs).
    rewrite Hrun in Hrun'. injection Hrun' as <-.
    destruct Hs as [Hu [Hl _] [Hc _] [Ht _]].
    rewrite Hu. auto.
Qed.

End SeedClaims.

(** The run of C10 on the sample world. *)
Lemma seed_counts_sample :
  exists w',
    Seed.main SeedSpec.sample_entropy SeedSpec.sample_clock true
      SeedSpec.sample_hash SeedSpec.sample_world = (0, w')
    /\ map (prop "role") (users (Seed.db w'))
         = [VStr "admin"; VStr "agent"; VStr "agent"]
    /\ length (leads (Seed.db w')) = 10%nat
    /\ length (customers (Seed.db w')) = 5%nat
    /\ length (tasks (Seed.db w')) = 8%nat.
Proof.
  destruct (seed_counts SeedSpec.sample_entropy SeedSpec.sample_clock
              SeedSpec.sample_hash true SeedSpec.sample_world) as [Hrun Hpost].
  destruct (Hrun eq_refl) as [w' Hw'].
  exists w'. split; [exact Hw' | exact (Hpost w' Hw')].
Defined.

(** ** Objects *)

Section ObjectFacts.

Lemma prop_set_prop_eq k v o : prop k (set_prop k v o) = v.
Proof.
  induction o as [| [k' v'] o IH]; simpl.
  - rewrite String.eqb_refl. reflexivity.
  - destruct (String.eqb k k') eqn:E; simpl; rewrite E; [reflexivity | exact IH].
Qed.

Lemma prop_set_prop_ne k k' v o :
  k <> k' -> prop k (set_prop k' v o) = prop k o.
Proof.
  intros Hne. induction o as [| [k0 v0] o IH]; simpl.
  - apply String.eqb_neq in Hne. rewrite Hne. reflexivity.
  - destruct (String.eqb k' k0) eqn:E; simpl.
    + apply String.eqb_eq in E. subst k0.
      apply String.eqb_neq in Hne. rewrite Hne. reflexivity.
    + destruct (String.eqb k k0); [reflexivity | exact IH].
Qed.

End ObjectFacts.

(** ** Overdue tasks *)

Section TaskClaims.

Import Seed SeedSpec TaskController.




End TaskClaims.


(** ** Routing *)

Section PathFacts.

Import AuthRoutes RouterSpec RouterDetail SeedDetail.

Lemma lower_ascii_percent c : lower_ascii c = percent -> c = percent.
Proof. destruct c as [[] [] [] [] [] [] [] []]; vm_compute; congruence. Qed.

(** Text without a [%] is decoded as it stands. *)
Lemma plain_decodable s : all_chars plain s = true -> decodable s = true.
Proof.
  unfold decodable. induction s as [| c s IH]; [reflexivity |].
  cbn [all_chars]. intros [Hc Hs]%andb_prop.
  unfold plain in Hc. apply negb_true_iff in Hc.
  cbn [decodes]. rewrite Hc. apply IH, Hs.
Qed.

Lemma lower_plain pat : forall seg,
  toLowerCase pat = toLowerCase seg ->
  all_chars plain pat = true -> all_chars plain seg = true.
Proof.
  induction pat as [| a pat IH]; intros [| b seg] E; try discriminate E;
    [reflexivity |].
  cbn [toLowerCase] in E. injection E as Ec Es.
  cbn [all_chars]. intros [Ha Hp]%andb_prop.
  rewrite (IH seg Es Hp), andb_true_r.
  unfold plain in *. apply negb_true_iff. apply negb_true_iff in Ha.
  apply Ascii.eqb_neq. intros ->. apply Ascii.eqb_neq in Ha. apply Ha.
  apply lower_ascii_percent. rewrite Ec. reflexivity.
Qed.

(** The pieces of a path that fits a pattern of plain text and whose
    parameters are decoded can all be decoded. *)
Lemma match_all_decodable pats : forall segs,
  forallb (all_chars plain) pats = true ->
  segments_match pats segs = true -> undecodable pats segs = None ->
  forallb decodable segs = true.
Proof.
  induction pats as [| p pats IH]; intros [| s segs] Hp Hm Hu;
    try discriminate Hm; [reflexivity |].
  cbn [forallb] in Hp. apply andb_prop in Hp as [Hp Hps].
  cbn [segments_match] in Hm. apply andb_prop in Hm as [Hm Hms].
  cbn [undecodable] in Hu. cbn [forallb].
  unfold segment_matches in Hm.
  destruct (is_param p).
  - destruct (decodable s); [| discriminate Hu].
    exact (IH segs Hps Hms Hu).
  - cbn [andb] in Hu. rewrite (IH segs Hps Hms Hu), andb_true_r.
    apply plain_decodable, (lower_plain p); [| exact Hp].
    apply String.eqb_eq, Hm.
Qed.

Lemma undecodable_some pats : forall segs seg,
  undecodable pats segs = Some seg ->
  decodable seg = false /\ forallb decodable segs = false.
Proof.
  induction pats as [| p pats IH]; intros [| s segs] seg Hu;
    try discriminate Hu.
  cbn [undecodable] in Hu. cbn [forallb].
  destruct (is_param p && negb (decodable s)) eqn:E.
  - injection Hu as <-. apply andb_prop in E as [_ E].
    apply negb_true_iff in E. rewrite E. auto.
  - destruct (IH segs seg Hu) as [H1 H2]. rewrite H2, andb_false_r. auto.
Qed.

Lemma path_match_matched pattern p :
  path_match pattern p = Matched ->
  exists segs,
    path_segments p = Some segs
    /\ segments_match (segments pattern) segs = true
    /\ undecodable (segments pattern) segs = None.
Proof.
  unfold path_match. destruct (path_segments p) as [segs |]; [| discriminate].
  destruct (segments_match (segments pattern) segs) eqn:Em; [| discriminate].
  destruct (undecodable (segments pattern) segs) eqn:Eu; [discriminate |].
  intros _. exists segs. auto.
Qed.

Lemma path_match_malformed pattern p seg :
  path_match pattern p = Malformed seg ->
  exists segs,
    path_segments p = Some segs
    /\ undecodable (segments pattern) segs = Some seg.
Proof.
  unfold path_match. destruct (path_segments p) as [segs |]; [| discriminate].
  destruct (segments_match (segments pattern) segs) eqn:Em; [| discriminate].
  destruct (undecodable (segments pattern) segs) eqn:Eu; [| discriminate].
  intros [= ->]. exists segs. auto.
Qed.

Lemma undecodable_param pats : forall segs seg,
  undecodable pats segs = Some seg -> existsb is_param pats = true.
Proof.
  induction pats as [| p pats IH]; intros [| s segs] seg Hu;
    try discriminate Hu.
  cbn [undecodable] in Hu. cbn [existsb].
  destruct (is_param p); [reflexivity |].
  cbn [andb] in Hu. exact (IH segs seg Hu).
Qed.

(** Only a pattern with a parameter can meet a path it cannot decode. *)
Lemma malformed_param pattern p seg :
  path_match pattern p = Malformed seg ->
  existsb is_param (segments pattern) = true.
Proof.
  intros (segs & _ & Hu)%path_match_malformed.
  exact (undecodable_param _ _ _ Hu).
Qed.

Lemma matched_well_formed pattern req :
  forallb (all_chars plain) (segments pattern) = true ->
  path_match pattern (path req) = Matched -> well_formed req = true.
Proof.
  intros Hp (segs & Hs & Hm & Hu)%path_match_matched.
  unfold well_formed. rewrite Hs. exact (match_all_decodable _ _ Hp Hm Hu).
Qed.

Lemma malformed_ill_formed pattern req seg :
  path_match pattern (path req) = Malformed seg ->
  decodable seg = false /\ well_formed req = false.
Proof.
  intros (segs & Hs & Hu)%path_match_malformed.
  unfold well_formed. rewrite Hs. exact (undecodable_some _ _ _ Hu).
Qed.

Lemma matches_inv r req :
  matches r req = true ->
  handles_method r (method req) = true
  /\ path_match (route_path r) (path req) = Matched.
Proof.
  unfold matches. intros [Hm Hp]%andb_prop. split; [exact Hm |].
  destruct (path_match _ _); try discriminate Hp. reflexivity.
Qed.

Lemma regular_inv rs r :
  regular rs = true -> r ∈ rs ->
  forallb (all_chars plain) (segments (route_path r)) = true
  /\ (forall req, handles_method r (method req) = true ->
                  method req <> OPTIONS).
Proof.
  unfold regular. intros H Hr%list_elem_of_In.
  rewrite forallb_forall in H. apply H in Hr.
  apply andb_prop in Hr as [Hp Hm]. split; [exact Hp |].
  intros req Hh Ho. rewrite Ho in Hh. unfold handles_method in Hh.
  destruct (route_method r); discriminate.
Qed.

(** A request that matches a route of a regular router is well formed and
    is no OPTIONS request. *)
Lemma matches_regular rs r req :
  regular rs = true -> r ∈ rs -> matches r req = true ->
  well_formed req = true /\ method req <> OPTIONS.
Proof.
  intros Hreg Hr [Hm Hp]%matches_inv.
  destruct (regular_inv rs r Hreg Hr) as [Hplain Hopt].
  split; [exact (matched_well_formed _ _ Hplain Hp) | exact (Hopt req Hm)].
Qed.

Lemma may_share_spec pats1 : forall pats2 segs,
  segments_match pats1 segs = true -> segments_match pats2 segs = true ->
  may_share pats1 pats2 = true.
Proof.
  induction pats1 as [| p1 l1 IH]; intros [| p2 l2] [| s segs] H1 H2;
    try discriminate H1; try discriminate H2; [reflexivity |].
  cbn [segments_match] in H1, H2.
  apply andb_prop in H1 as [H1 H1']. apply andb_prop in H2 as [H2 H2'].
  cbn [may_share]. rewrite (IH l2 segs H1' H2'), andb_true_r.
  unfold segment_matches in H1, H2.
  destruct (is_param p1); [reflexivity |].
  destruct (is_param p2); [reflexivity |]. cbn [orb].
  apply String.eqb_eq in H1, H2. apply String.eqb_eq. congruence.
Qed.

(** Two routes that match the same request overlap. *)
Lemma both_match_overlap r1 r2 req :
  matches r1 req = true -> matches r2 req = true -> overlap r1 r2 = true.
Proof.
  intros [M1 P1]%matches_inv [M2 P2]%matches_inv.
  apply path_match_matched in P1 as (segs & Hs & S1 & _).
  apply path_match_matched in P2 as (segs' & Hs' & S2 & _).
  rewrite Hs in Hs'. injection Hs' as <-.
  unfold overlap. rewrite (may_share_spec _ _ _ S1 S2), andb_true_r.
  unfold handles_method in M1, M2. unfold answers_head.
  destruct (route_method r1), (route_method r2), (method req);
    try discriminate M1; try discriminate M2; reflexivity.
Qed.

End PathFacts.

Section HandleFacts.

Import AuthRoutes RouterSpec RouterDetail SeedDetail.

Variable verify : string -> option Obj.
Variable validate : string -> Request -> Outcome.
Variable controller : string -> Request -> Outcome.

(** Once a parameter could not be decoded the router ends with the error,
    and no handler runs. *)
Lemma handle_failed rs req e al :
  handle verify validate controller rs req (Some e) al = (Fail e, []).
Proof.
  induction rs as [| r rs IH]; [reflexivity |].
  cbn [handle]. destruct (path_match _ _); exact IH.
Qed.

Lemma handle_skip r rs req al :
  well_formed req = true -> method req <> OPTIONS ->
  matches r req = false ->
  handle verify validate controller (r :: rs) req None al
  = handle verify validate controller rs req None al.
Proof.
  intros Hwf Hopt Hm. cbn [handle]. unfold matches in Hm.
  destruct (path_match (route_path r) (path req)) as [| | seg] eqn:E.
  - reflexivity.
  - rewrite andb_true_r in Hm. rewrite Hm.
    destruct (method req); try reflexivity. contradiction.
  - destruct (malformed_ill_formed _ _ _ E) as [_ H]. congruence.
Qed.

Lemma handle_enter r rs req al :
  matches r req = true ->
  handle verify validate controller (r :: rs) req None al
  = match run_stack verify validate controller (stack r) req with
    | (Next req', t) =>
        let '(o, t') := handle verify validate controller rs req' None al in
        (o, t ++ t')
    | (o, t) => (o, t)
    end.
Proof.
  intros [Hm Hp]%matches_inv. cbn [handle]. rewrite Hp, Hm. reflexivity.
Qed.

(** In a list of routes of which only [r] matches the request, the request
    is handled by the stack of [r]. *)
Lemma handle_only_match rs r req o t al :
  well_formed req = true -> method req <> OPTIONS ->
  r ∈ rs -> matches r req = true ->
  (forall r', r' ∈ rs -> matches r' req = true -> r' = r) ->
  run_stack verify validate controller (stack r) req = (o, t) ->
  (forall req', o <> Next req') ->
  handle verify validate controller rs req None al = (o, t).
Proof.
  intros Hwf Hopt Hr Hm Honly Hs Ho.
  induction rs as [| r0 rs IH]; [inversion Hr |].
  destruct (matches r0 req) eqn:E.
  - rewrite (handle_enter _ _ _ _ E).
    rewrite (Honly r0 (list_elem_of_here _ _) E), Hs.
    destruct o; [destruct (Ho req0 eq_refl) | reflexivity | reflexivity].
  - rewrite (handle_skip _ _ _ _ Hwf Hopt E).
    apply elem_of_cons in Hr as [-> | Hr]; [congruence |].
    apply IH; [exact Hr |].
    intros r' Hr'. apply Honly, list_elem_of_further, Hr'.
Qed.

Lemma run_stack_head h hs req :
  exists t, (run_stack verify validate controller (h :: hs) req).2 = h :: t.
Proof.
  simpl. destruct (run verify validate controller h req) as [req' | res | e].
  - destruct (run_stack verify validate controller hs req') as [o t].
    exists t. reflexivity.
  - exists []. reflexivity.
  - exists []. reflexivity.
Qed.

(** The first handler of the first route that matches is invoked. *)
Lemma handle_head rs r req h hs al :
  well_formed req = true -> method req <> OPTIONS ->
  r ∈ rs -> matches r req = true ->
  (forall r', r' ∈ rs -> matches r' req = true -> r' = r) ->
  stack r = h :: hs ->
  exists t, (handle verify validate controller rs req None al).2 = h :: t.
Proof.
  intros Hwf Hopt Hr Hm Honly Hst.
  induction rs as [| r0 rs IH]; [inversion Hr |].
  destruct (matches r0 req) eqn:E.
  - rewrite (handle_enter _ _ _ _ E).
    rewrite (Honly r0 (list_elem_of_here _ _) E), Hst.
    destruct (run_stack_head h hs req) as [t Ht].
    destruct (run_stack verify validate controller (h :: hs) req) as [o t0].
    simpl in Ht. subst t0.
    destruct o as [req' | res | e].
    + destruct (handle verify validate controller rs req' None al) as [o' t'].
      exists (t ++ t'). reflexivity.
    + exists t. reflexivity.
    + exists t. reflexivity.
  - rewrite (handle_skip _ _ _ _ Hwf Hopt E).
    apply elem_of_cons in Hr as [-> | Hr]; [congruence |].
    apply IH; [exact Hr |].
    intros r' Hr'. apply Honly, list_elem_of_further, Hr'.
Qed.

(** A stack that starts with [auth] answers 401 to a request that carries
    no identity, and nothing else runs. *)
Lemma guarded_stack_401 hs req :
  identity verify req = None ->
  run_stack verify validate controller (auth :: hs) req
  = (Respond Unauthorized, [auth]).
Proof. intros H. simpl. unfold auth_middleware. rewrite H. reflexivity. Qed.

(** When every route that matches the request starts with [auth], a
    request without identity that matches some route is answered 401. *)
Lemma handle_guarded rs req al :
  well_formed req = true -> method req <> OPTIONS ->
  (exists r, r ∈ rs /\ matches r req = true) ->
  (forall r, r ∈ rs -> matches r req = true -> exists hs, stack r = auth :: hs) ->
  identity verify req = None ->
  handle verify validate controller rs req None al
  = (Respond Unauthorized, [auth]).
Proof.
  intros Hwf Hopt (r & Hr & Hm) Hg Hid.
  induction rs as [| r0 rs IH]; [inversion Hr |].
  destruct (matches r0 req) eqn:E.
  - rewrite (handle_enter _ _ _ _ E).
    destruct (Hg r0 (list_elem_of_here _ _) E) as [hs ->].
    rewrite (guarded_stack_401 _ _ Hid). reflexivity.
  - rewrite (handle_skip _ _ _ _ Hwf Hopt E).
    apply elem_of_cons in Hr as [-> | Hr]; [congruence |].
    apply IH; [exact Hr |].
    intros r' Hr'. apply Hg, list_elem_of_further, Hr'.
Qed.




(** A path that fits a pattern but whose parameter cannot be decoded: the
    router ends with the error of the first route it fits. *)
Lemma handle_malformed rs req al :
  (forall r, r ∈ rs -> path_match (route_path r) (path req) <> Matched) ->
  (exists r seg, r ∈ rs /\ path_match (route_path r) (path req) = Malformed seg) ->
  exists r seg,
    r ∈ rs /\ path_match (route_path r) (path req) = Malformed seg
    /\ handle verify validate controller rs req None al
       = (Fail (URIError seg), []).
Proof.
  intros Hnm (r & seg & Hr & Hp).
  induction rs as [| r0 rs IH]; [inversion Hr |].
  cbn [handle].
  destruct (path_match (route_path r0) (path req)) as [| | seg0] eqn:E.
  - apply elem_of_cons in Hr as [-> | Hr]; [congruence |].
    destruct IH as (r1 & seg1 & Hr1 & Hp1 & H1); [| exact Hr |].
    { intros r' Hr'. apply Hnm, list_elem_of_further, Hr'. }
    exists r1, seg1. split; [apply list_elem_of_further, Hr1 | auto].
  - destruct (Hnm r0 (list_elem_of_here _ _) E).
  - exists r0, seg0. split; [apply list_elem_of_here |].
    split; [exact E | apply handle_failed].
Qed.

(** In a regular router a path with a parameter that cannot be decoded is
    matched by no route. *)
Lemma ill_formed_unmatched rs req r :
  regular rs = true -> r ∈ rs -> well_formed req = false ->
  path_match (route_path r) (path req) <> Matched.
Proof.
  intros Hreg Hr Hwf E.
  destruct (regular_inv rs r Hreg Hr) as [Hplain _].
  rewrite (matched_well_formed _ _ Hplain E) in Hwf. discriminate.
Qed.

Lemma regular_malformed rs req r seg al :
  regular rs = true -> r ∈ rs ->
  path_match (route_path r) (path req) = Malformed seg ->
  exists r' seg',
    r' ∈ rs /\ path_match (route_path r') (path req) = Malformed seg'
    /\ decodable seg' = false
    /\ handle verify validate controller rs req None al
       = (Fail (URIError seg'), []).
Proof.
  intros Hreg Hr Hp.
  destruct (malformed_ill_formed _ _ _ Hp) as [_ Hwf].
  destruct (handle_malformed rs req al) as (r' & seg' & Hr' & Hp' & H).
  - intros r0 Hr0. exact (ill_formed_unmatched rs req r0 Hreg Hr0 Hwf).
  - exists r, seg. auto.
  - exists r', seg'. repeat split; try assumption.
    apply (malformed_ill_formed _ _ _ Hp').
Qed.

(** A request for a route, in the sense of [fits], either matches it or
    has a parameter that cannot be decoded. *)
Lemma fits_cases r req :
  fits r req = true ->
  matches r req = true
  \/ (matches r req = false
      /\ exists seg, path_match (route_path r) (path req) = Malformed seg).
Proof.
  unfold fits, matches. intros [Hm Hp]%andb_prop. rewrite Hm.
  destruct (path_match (route_path r) (path req)) as [| | seg];
    [discriminate Hp | left; reflexivity | right; eauto].
Qed.





End HandleFacts.

(** ** The auth router *)

Section RouterProofs.

Import AuthRoutes Api RouterSpec RouterDetail SeedDetail.

Variable verify : string -> option Obj.
Variable validate : string -> Request -> Outcome.
Variable controller : string -> Request -> Outcome.

Lemma router_regular : regular router = true.
Proof. vm_compute. reflexivity. Qed.

Lemma api_regular mount rs : (mount, rs) ∈ api -> regular rs = true.
Proof.
  intros H. unfold api in H.
  repeat (apply elem_of_cons in H as [[= -> ->] | H]);
    try (vm_compute; reflexivity).
  inversion H.
Qed.

(** No two routes of the auth router overlap. *)
Lemma router_overlap_free r1 r2 :
  r1 ∈ router -> r2 ∈ router -> overlap r1 r2 = true -> r1 = r2.
Proof.
  intros Hr1 Hr2 Ho. unfold router in Hr1, Hr2.
  repeat (apply elem_of_cons in Hr1 as [-> | Hr1]); [.. | inversion Hr1];
    repeat (apply elem_of_cons in Hr2 as [-> | Hr2]);
    try (inversion Hr2; fail); try reflexivity;
    vm_compute in Ho; discriminate Ho.
Qed.

Lemma router_disjoint req r1 r2 :
  r1 ∈ router -> r2 ∈ router ->
  matches r1 req = true -> matches r2 req = true -> r1 = r2.
Proof.
  intros Hr1 Hr2 H1 H2. apply router_overlap_free; try assumption.
  exact (both_match_overlap r1 r2 req H1 H2).
Qed.

(** The router hands a request to the route that matches it. *)
Lemma router_handles r req o t :
  r ∈ router -> matches r req = true ->
  run_stack verify validate controller (stack r) req = (o, t) ->
  (forall req', o <> Next req') ->
  dispatch verify validate controller router req = (o, t).
Proof.
  intros Hr Hm Hs Ho.
  destruct (matches_regular router r req router_regular Hr Hm) as [Hwf Hopt].
  apply (handle_only_match verify validate controller router r);
    try assumption.
  intros r' Hr' Hm'. apply (router_disjoint req); assumption.
Qed.

Lemma router_head r req h hs :
  r ∈ router -> matches r req = true -> stack r = h :: hs ->
  exists t, (dispatch verify validate controller router req).2 = h :: t.
Proof.
  intros Hr Hm Hst.
  destruct (matches_regular router r req router_regular Hr Hm) as [Hwf Hopt].
  apply (handle_head verify validate controller router r req h hs);
    try assumption.
  intros r' Hr' Hm'. apply (router_disjoint req); assumption.
Qed.

(** The two routes with a parameter share their pattern, so the error the
    router ends with names the piece of the path under [:id]. *)
Lemma router_malformed r req seg :
  r ∈ router -> path_match (route_path r) (path req) = Malformed seg ->
  dispatch verify validate controller router req = (Fail (URIError seg), []).
Proof.
  intros Hr Hp.
  assert (Hpat : forall r0 seg0, r0 ∈ router ->
            path_match (route_path r0) (path req) = Malformed seg0 ->
            route_path r0 = "/users/:id").
  { intros r0 seg0 Hr0 Hp0. apply malformed_param in Hp0.
    unfold router in Hr0.
    repeat (apply elem_of_cons in Hr0 as [-> | Hr0]);
      try discriminate Hp0; try reflexivity.
    inversion Hr0. }
  destruct (regular_malformed verify validate controller router req r seg []
              router_regular Hr Hp)
    as (r' & seg' & Hr' & Hp' & _ & Hd).
  rewrite (Hpat r seg Hr Hp) in Hp. rewrite (Hpat r' seg' Hr' Hp') in Hp'.
  rewrite Hp in Hp'. injection Hp' as <-. exact Hd.
Qed.

Lemma includes_admin v :
  v <> VStr "admin" -> includes ["admin"] v = false.
Proof.
  intros Hv. destruct v as [| | | | s | | | |]; try reflexivity.
  simpl. rewrite orb_false_r. apply String.eqb_neq. congruence.
Qed.

Lemma admin_stack_403 hs req claims :
  identity verify req = Some claims -> prop "role" claims <> VStr "admin" ->
  run_stack verify validate controller (auth :: requireRole ["admin"] :: hs) req
  = (Respond Forbidden, [auth; requireRole ["admin"]]).
Proof.
  intros H Hrole. simpl. unfold auth_middleware. rewrite H.
  unfold requireRole_middleware. simpl.
  rewrite (includes_admin _ Hrole). reflexivity.
Qed.

Lemma admin_only_stack r :
  r ∈ router -> admin_only r = true ->
  exists rest c,
    stack r = auth :: requireRole ["admin"] :: rest ++ [ctrl c]
    /\ no_controller rest = true.
Proof.
  intros Hr Ha. unfold router in Hr.
  repeat (apply elem_of_cons in Hr as [-> | Hr]); try discriminate Ha.
  - exists [rules "register"], "register". split; reflexivity.
  - exists [], "listUsers". split; reflexivity.
  - exists [], "updateUser". split; reflexivity.
  - exists [], "deleteUser". split; reflexivity.
  - inversion Hr.
Qed.

Ltac not_in_stack :=
  let H := fresh in
  intros H; repeat (apply elem_of_cons in H as [H | H]; [discriminate H |]);
  inversion H.

(** The routes of the API registered without [auth] are three routes of
    the auth router; all the others start with [auth]. *)
Lemma api_open_route mount rs r :
  (mount, rs) ∈ api -> r ∈ rs -> open_route mount r = true ->
  rs = router /\ exists h hs, stack r = h :: hs /\ auth ∉ stack r.
Proof.
  intros H Hr Ho. unfold api in H.
  repeat (apply elem_of_cons in H as [[= -> ->] | H]); [.. | inversion H];
    try discriminate Ho.
  split; [reflexivity |]. unfold router in Hr.
  repeat (apply elem_of_cons in Hr as [-> | Hr]); try discriminate Ho;
    try (do 2 eexists; split; [reflexivity | not_in_stack]).
  inversion Hr.
Qed.

Lemma api_guarded_route mount rs r :
  (mount, rs) ∈ api -> r ∈ rs -> open_route mount r = false ->
  exists hs, stack r = auth :: hs.
Proof.
  intros H Hr Ho. unfold api in H.
  repeat (apply elem_of_cons in H as [[= -> ->] | H]); [.. | inversion H].
  all: match type of Hr with
       | _ ∈ ?table => unfold table in Hr
       end.
  all: repeat (apply elem_of_cons in Hr as [-> | Hr]);
         try discriminate Ho; try (eexists; reflexivity); inversion Hr.
Qed.

(** In the routers modelled from the spec every route is guarded. *)
Lemma api_all_guarded mount rs r :
  (mount, rs) ∈ api -> rs <> router -> r ∈ rs -> open_route mount r = false.
Proof.
  intros H Hrs Hr. unfold api in H.
  repeat (apply elem_of_cons in H as [[= -> ->] | H]); [.. | inversion H];
    try reflexivity.
  congruence.
Qed.

(** A request without identity that matches a guarded route of the API is
    answered 401 by [auth]. *)
Lemma api_unauthorized mount rs r req :
  (mount, rs) ∈ api -> r ∈ rs -> matches r req = true ->
  open_route mount r = false -> identity verify req = None ->
  dispatch verify validate controller rs req = (Respond Unauthorized, [auth]).
Proof.
  intros H Hr Hm Ho Hid.
  destruct (matches_regular rs r req (api_regular _ _ H) Hr Hm) as [Hwf Hopt].
  apply handle_guarded; try assumption; [exists r; auto |].
  intros r' Hr' Hm'.
  assert (Hcase : rs = router \/ rs <> router).
  { unfold api in H.
    repeat (apply elem_of_cons in H as [[= -> ->] | H]); [.. | inversion H];
      first [left; reflexivity | right; discriminate]. }
  destruct Hcase as [-> | Hne].
  - rewrite (router_disjoint req r' r Hr' Hr Hm' Hm).
    apply (api_guarded_route mount router); assumption.
  - apply (api_guarded_route mount rs); [assumption.. |].
    apply (api_all_guarded mount rs); assumption.
Qed.

(** C1, as amended: every route of the API other than POST /auth/login,
    POST /auth/refresh and POST /auth/logout turns down a request without a
    valid bearer access token with Unauthorized (401), and only [auth]
    runs; login, refresh and logout are registered without [auth], and the
    first handler of their stack is invoked for such a request.  This is
    so for the requests that reach a route.  A request whose path fits the
    pattern of a route but holds a parameter that cannot be
    percent-decoded reaches none: the router ends it with a URIError of
    status 400, and no handler runs. *)
Theorem api_guard mount rs r req :
  (mount, rs) ∈ api -> r ∈ rs -> fits r req = true ->
  identity verify req = None ->
  (matches r req = true ->
     (open_route mount r = false ->
        dispatch verify validate controller rs req
        = (Respond Unauthorized, [auth]))
     /\ (open_route mount r = true ->
         exists h t, head (stack r) = Some h /\ (auth ∉ stack r) /\
           (dispatch verify validate controller rs req).2 = h :: t))
  /\ (matches r req = false ->
      exists seg,
        decodable seg = false
        /\ dispatch verify validate controller rs req
           = (Fail (URIError seg), [])).
Proof.
  intros H Hr Hfit Hid. split.
  - intros Hm. split; intros Ho.
    + apply (api_unauthorized mount rs r); assumption.
    + destruct (api_open_route mount rs r H Hr Ho) as (-> & h & hs & Hst & Hna).
      destruct (router_head r req h hs Hr Hm Hst) as [t Ht].
      exists h, t. split; [rewrite Hst; reflexivity |]. split; [exact Hna | exact Ht].
  - intros Hm. destruct (fits_cases r req Hfit) as [Hm' | (_ & seg & Hp)];
      [congruence |].
    destruct (regular_malformed verify validate controller rs req r seg []
                (api_regular _ _ H) Hr Hp)
      as (r' & seg' & _ & _ & Hdec & Hd).
    exists seg'. auto.
Qed.

(** C2, as amended: the routes POST /register, GET /users, PATCH
    /users/:id and DELETE /users/:id run [auth] and then
    [requireRole('admin')] before their controller.  A caller whose token
    carries a role other than 'admin' receives Forbidden (403) from every
    one of them whenever the request reaches the route, and only the two
    middlewares run; a caller without a valid token is stopped by [auth]
    already.  A request whose [:id] cannot be percent-decoded does not
    reach the route: the router ends it with a URIError of status 400.  In
    every case the controller is not invoked. *)
Theorem admin_routes_forbidden req r :
  r ∈ router -> admin_only r = true -> fits r req = true ->
  (exists rest c,
     stack r = auth :: requireRole ["admin"] :: rest ++ [ctrl c]
     /\ no_controller rest = true)
  /\ (matches r req = true ->
      (forall claims,
         identity verify req = Some claims ->
         prop "role" claims <> VStr "admin" ->
         dispatch verify validate controller router req
         = (Respond Forbidden, [auth; requireRole ["admin"]]))
      /\ (identity verify req = None ->
          dispatch verify validate controller router req
          = (Respond Unauthorized, [auth])))
  /\ (matches r req = false ->
      exists seg,
        decodable seg = false
        /\ dispatch verify validate controller router req
           = (Fail (URIError seg), []))
  /\ ((forall claims, identity verify req = Some claims ->
                      prop "role" claims <> VStr "admin") ->
      no_controller (dispatch verify validate controller router req).2 = true).
Proof.
  intros Hr Ha Hfit.
  destruct (admin_only_stack r Hr Ha) as (rest & c & Hst & Hrest).
  assert (H403 : matches r req = true -> forall claims,
             identity verify req = Some claims ->
             prop "role" claims <> VStr "admin" ->
             dispatch verify validate controller router req
             = (Respond Forbidden, [auth; requireRole ["admin"]])).
  { intros Hm claims Hid Hrole.
    apply (router_handles r); try assumption; [| discriminate].
    rewrite Hst. apply admin_stack_403 with claims; assumption. }
  assert (H401 : matches r req = true -> identity verify req = None ->
             dispatch verify validate controller router req
             = (Respond Unauthorized, [auth])).
  { intros Hm Hid.
    apply (router_handles r); try assumption; [| discriminate].
    rewrite Hst. apply guarded_stack_401, Hid. }
  assert (H400 : matches r req = false ->
             exists seg, decodable seg = false
               /\ dispatch verify validate controller router req
                  = (Fail (URIError seg), [])).
  { intros Hm. destruct (fits_cases r req Hfit) as [Hm' | (_ & seg & Hp)];
      [congruence |].
    destruct (regular_malformed verify validate controller router req r seg []
                router_regular Hr Hp)
      as (r' & seg' & _ & _ & Hdec & Hd).
    exists seg'. auto. }
  split; [eauto |]. split; [intros Hm; split; [exact (H403 Hm) | exact (H401 Hm)] |].
  split; [exact H400 |].
  intros Hrole. destruct (matches r req) eqn:Hm.
  - destruct (identity verify req) as [claims |] eqn:Hid.
    + rewrite (H403 eq_refl claims eq_refl (Hrole claims eq_refl)). reflexivity.
    + rewrite (H401 eq_refl eq_refl). reflexivity.
  - destruct (H400 eq_refl) as (seg & _ & ->). reflexivity.
Qed.

End RouterProofs.

(** C1, as stated, fails, and for two reasons.  POST /logout is registered
    without [auth], so a logout request without any token reaches the
    controller.  And with logout set apart beside login and refresh, a
    request without a token to delete the user [%ZZ] fits DELETE
    /users/:id, but Express cannot decode the parameter and ends the
    request with a URIError (status 400) before [auth] runs: the answer is
    no 401. *)
Lemma logout_and_malformed_id_escape_the_guard :
  ~ RouterSpec.guarded_except ["/login"; "/refresh"]
  /\ ~ RouterSpec.guarded_except RouterSpec.open_paths.
Proof.
  split; intros H.
  - destruct (H RouterSpec.no_token RouterSpec.pass RouterSpec.answer_ok
                RouterSpec.anonymous_logout
                (AuthRoutes.router_post "/logout" [AuthRoutes.ctrl "logout"]))
      as (res & t & Hd & Hst & Hnc);
      [ unfold AuthRoutes.router;
        do 3 apply list_elem_of_further; apply list_elem_of_here
      | reflexivity | reflexivity | reflexivity | ].
    vm_compute in Hd. injection Hd as <- <-. discriminate Hnc.
  - destruct (H RouterSpec.no_token RouterSpec.pass RouterSpec.answer_ok
                RouterSpec.anonymous_deletes_nobody
                (AuthRoutes.router_delete "/users/:id"
                   [AuthRoutes.auth; AuthRoutes.requireRole ["admin"];
                    AuthRoutes.ctrl "deleteUser"]))
      as (res & t & Hd & _);
      [ unfold AuthRoutes.router;
        do 6 apply list_elem_of_further; apply list_elem_of_here
      | reflexivity | reflexivity | reflexivity | ].
    vm_compute in Hd. discriminate Hd.
Qed.

(** C2, as stated, fails: a request to update the user [%ZZ] fits PATCH
    /users/:id, but Express cannot decode the parameter and ends the
    request with a URIError (status 400) before any middleware: the agent
    who sends it receives no 403. *)
Lemma malformed_id_is_not_forbidden : ~ RouterSpec.always_forbidden.
Proof.
  intros H.
  destruct (H RouterSpec.agent_token_only RouterSpec.pass RouterSpec.answer_ok
              RouterSpec.agent_updates_nobody
              (AuthRoutes.router_patch "/users/:id"
                 [AuthRoutes.auth; AuthRoutes.requireRole ["admin"];
                  AuthRoutes.ctrl "updateUser"])
              RouterSpec.agent_claims)
    as (res & t & Hd & _);
    [ unfold AuthRoutes.router;
      do 5 apply list_elem_of_further; apply list_elem_of_here
    | reflexivity | reflexivity | reflexivity | discriminate | ].
  vm_compute in Hd. discriminate Hd.
Qed.

(** C2, as amended, for an agent who asks for the user list. *)
Lemma admin_routes_forbidden_sample :
  AuthRoutes.dispatch RouterSpec.agent_token_only RouterSpec.pass
    RouterSpec.answer_ok AuthRoutes.router RouterSpec.agent_lists_users
  = (AuthRoutes.Respond RouterSpec.Forbidden,
     [AuthRoutes.auth; AuthRoutes.requireRole ["admin"]]).
Proof.
  destruct (admin_routes_forbidden RouterSpec.agent_token_only RouterSpec.pass
              RouterSpec.answer_ok RouterSpec.agent_lists_users
              (AuthRoutes.router_get "/users"
                 [AuthRoutes.auth; AuthRoutes.requireRole ["admin"];
                  AuthRoutes.ctrl "listUsers"]))
    as (_ & H403 & _).
  - unfold AuthRoutes.router.
    do 4 apply list_elem_of_further. apply list_elem_of_here.
  - reflexivity.
  - reflexivity.
  - destruct (H403 eq_refl) as [H _].
    apply (H RouterSpec.agent_claims); [reflexivity | discriminate].
Defined.

(** C1, as amended, for a registration attempt without a token. *)
Lemma api_guard_sample :
  AuthRoutes.dispatch RouterSpec.no_token RouterSpec.pass RouterSpec.answer_ok
    AuthRoutes.router RouterSpec.anonymous_register
  = (AuthRoutes.Respond RouterSpec.Unauthorized, [AuthRoutes.auth]).
Proof.
  destruct (api_guard RouterSpec.no_token RouterSpec.pass
              RouterSpec.answer_ok "/api/auth" AuthRoutes.router
              (AuthRoutes.router_post "/register"
                 [AuthRoutes.auth; AuthRoutes.requireRole ["admin"];
                  AuthRoutes.rules "register"; AuthRoutes.ctrl "register"])
              RouterSpec.anonymous_register)
    as (H & _).
  - apply list_elem_of_here.
  - unfold AuthRoutes.router. apply list_elem_of_here.
  - reflexivity.
  - reflexivity.
  - destruct (H eq_refl) as [H401 _]. apply H401. reflexivity.
Defined.

(** ** Logging in after seeding *)

Section LoginClaims.

Import Seed SeedSpec AuthRoutes AuthService RouterSpec.

Variable entropy : nat -> Z.
Variable clock : nat -> Z.
Variable bcrypt_hash : string -> string.
Variable bcrypt_compare : string -> string -> bool.
Variable base64url : Value -> string.
Variable hmac : string -> string -> string.
Variable access_secret refresh_secret : string.
Variable access_ttl refresh_ttl : Z.
Variable verify : string -> option Obj.
Variable validate : string -> Request -> Outcome.
Variable others : string -> Request -> Outcome.

(** bcrypt accepts a password against the hash made from it. *)
Hypothesis bcrypt_accepts :
  forall p, bcrypt_compare p (bcrypt_hash p) = true.

Lemma jwt_sign_non_empty secret ttl now payload :
  String.eqb (jwt_sign base64url hmac secret ttl now payload) EmptyString = false.
Proof.
  unfold jwt_sign.
  match goal with
  | |- String.eqb (?a +:+ _) _ = _ => destruct a; reflexivity
  end.
Qed.

(** C4: after the seed script has run, a login request for admin@crm.com
    goes through [rules.login] and then [ctrl.login].  When the validation
    lets it through, the password Admin@123 is answered with status 200 and
    non-empty accessToken and refreshToken, and a password that bcrypt
    does not accept against the stored hash is answered with status 401 and
    a body [{message}]; when the validation answers, the controller does
    not run.  The script guarantees the precondition: it leaves exactly one
    user with that email, whose credential is the hash of that password,
    whose role is admin and whose account nothing has marked inactive. *)
Theorem seeded_admin_login now w req :
  matches (router_post "/login" [rules "login"; ctrl "login"]) req = true ->
  exists w',
    main entropy clock true bcrypt_hash w = (0, w')
    /\ (exists u,
          List.filter (has_email "admin@crm.com") (users (db w')) = [u]
          /\ prop "password" u = VStr (bcrypt_hash "Admin@123")
          /\ prop "role" u = VStr "admin"
          /\ inactive u = false)
    /\ (forall res,
          validate "login" req = Respond res ->
          dispatch verify validate
            (controllers bcrypt_compare base64url hmac access_secret
               refresh_secret access_ttl refresh_ttl others now (db w'))
            router req
          = (Respond res, [rules "login"]))
    /\ (forall req' password,
          validate "login" req = Next req' ->
          member "email" (body req') = VStr "admin@crm.com" ->
          member "password" (body req') = VStr password ->
          exists res,
            dispatch verify validate
              (controllers bcrypt_compare base64url hmac access_secret
                 refresh_secret access_ttl refresh_ttl others now (db w'))
              router req
            = (Respond res, [rules "login"; ctrl "login"])
            /\ (password = "Admin@123" ->
                status res = 200
                /\ non_empty_string (member "accessToken" (json res)) = true
                /\ non_empty_string (member "refreshToken" (json res)) = true)
            /\ (bcrypt_compare password (bcrypt_hash "Admin@123") = false ->
                status res = 401
                /\ exists m, json res = VObj [("message", VStr m)])).
Proof.
  intros Hm.
  assert (Hr : router_post "/login" [rules "login"; ctrl "login"] ∈ router).
  { unfold router. apply list_elem_of_further, list_elem_of_here. }
  destruct (main_seeds entropy clock bcrypt_hash w) as (w' & Hrun & Hs).
  destruct Hs as [Hu _ _ _].
  exists w'. split; [exact Hrun |]. split; [| split].
  - rewrite Hu. eexists. split; [reflexivity |]. repeat split.
  - intros res Hv.
    apply (router_handles _ _ _ _ _ _ _ Hr Hm); [| discriminate].
    simpl. rewrite Hv. reflexivity.
  - intros req' password Hv He Hp.
    eexists. split; [| split].
    + apply (router_handles _ _ _ _ _ _ _ Hr Hm); [| discriminate].
      simpl. rewrite Hv. unfold controllers at 1. cbn [String.eqb Ascii.eqb Bool.eqb].
      unfold login_controller. rewrite He, Hp. reflexivity.
    + intros ->. unfold login. rewrite Hu.
      cbn [find has_email user_doc prop String.eqb Ascii.eqb Bool.eqb inactive].
      rewrite bcrypt_accepts.
      cbn [negb andb status json member prop String.eqb Ascii.eqb Bool.eqb non_empty_string].
      rewrite !jwt_sign_non_empty. auto.
    + intros Hko. unfold login. rewrite Hu.
      cbn [find has_email user_doc prop String.eqb Ascii.eqb Bool.eqb].
      rewrite Hko. cbn [andb]. split; [reflexivity |].
      eexists. reflexivity.
Qed.

End LoginClaims.

(** C4 on the sample world, with a bcrypt that keeps the password behind a
    fixed prefix and a validation that lets every request through. *)
Lemma seeded_admin_login_sample :
  exists w' ok ko,
    Seed.main SeedSpec.sample_entropy SeedSpec.sample_clock true
      SeedSpec.sample_hash SeedSpec.sample_world = (0, w')
    /\ AuthRoutes.dispatch RouterSpec.no_token RouterSpec.pass
         (AuthService.controllers SeedSpec.sample_compare
            SeedSpec.sample_base64url SeedSpec.sample_hmac "access" "refresh"
            900 604800 RouterSpec.answer_ok 1700000100000 (Seed.db w'))
         AuthRoutes.router (RouterSpec.admin_login "Admin@123")
       = (AuthRoutes.Respond ok,
          [AuthRoutes.rules "login"; AuthRoutes.ctrl "login"])
    /\ AuthRoutes.status ok = 200
    /\ AuthRoutes.dispatch RouterSpec.no_token RouterSpec.pass
         (AuthService.controllers SeedSpec.sample_compare
            SeedSpec.sample_base64url SeedSpec.sample_hmac "access" "refresh"
            900 604800 RouterSpec.answer_ok 1700000100000 (Seed.db w'))
         AuthRoutes.router (RouterSpec.admin_login "admin")
       = (AuthRoutes.Respond ko,
          [AuthRoutes.rules "login"; AuthRoutes.ctrl "login"])
    /\ AuthRoutes.status ko = 401.
Proof.
  destruct (seeded_admin_login SeedSpec.sample_entropy SeedSpec.sample_clock
              SeedSpec.sample_hash SeedSpec.sample_compare
              SeedSpec.sample_base64url SeedSpec.sample_hmac
              "access" "refresh" 900 604800 RouterSpec.no_token
              RouterSpec.pass RouterSpec.answer_ok
              (fun p => String.eqb_refl (SeedSpec.sample_hash p))
              1700000100000 SeedSpec.sample_world
              (RouterSpec.admin_login "Admin@123") eq_refl)
    as (w' & Hrun & _ & _ & Hok).
  destruct (seeded_admin_login SeedSpec.sample_entropy SeedSpec.sample_clock
              SeedSpec.sample_hash SeedSpec.sample_compare
              SeedSpec.sample_base64url SeedSpec.sample_hmac
              "access" "refresh" 900 604800 RouterSpec.no_token
              RouterSpec.pass RouterSpec.answer_ok
              (fun p => String.eqb_refl (SeedSpec.sample_hash p))
              1700000100000 SeedSpec.sample_world
              (RouterSpec.admin_login "admin") eq_refl)
    as (w'' & Hrun' & _ & _ & Hko).
  rewrite Hrun in Hrun'. injection Hrun' as <-.
  destruct (Hok (RouterSpec.admin_login "Admin@123") "Admin@123"
              eq_refl eq_refl eq_refl) as (ok & Hd & H200 & _).
  destruct (Hko (RouterSpec.admin_login "admin") "admin"
              eq_refl eq_refl eq_refl) as (ko & Hd' & _ & H401).
  exists w', ok, ko. split; [exact Hrun |].
  split; [exact Hd |]. split; [apply H200; reflexivity |].
  split; [exact Hd' |]. apply H401. reflexivity.
Defined.

(** ** Converting a lead *)

Section ConvertProofs.

Import LeadController LeadSpec.

Variable bcrypt_hash : string -> string.
Variable caller : Obj.
Variable leadId : Value.

Lemma close_lead_id customer lead :
  _id (close_lead caller customer lead) = _id lead.
Proof.
  unfold close_lead, _id.
  rewrite !prop_set_prop_ne by discriminate. reflexivity.
Qed.

Lemma close_lead_visible customer lead :
  visible caller (close_lead caller customer lead) = visible caller lead.
Proof.
  unfold visible, close_lead.
  rewrite !prop_set_prop_ne by discriminate. reflexivity.
Qed.

Lemma close_lead_status customer lead :
  prop "status" (close_lead caller customer lead) = ClosedWon.
Proof.
  unfold close_lead.
  rewrite prop_set_prop_ne by discriminate. apply prop_set_prop_eq.
Qed.

(** Closing a lead records exactly one more conversion in its history. *)
Lemma close_lead_conversions customer lead :
  conversions (close_lead caller customer lead) = S (conversions lead).
Proof.
  unfold conversions, close_lead. unfold history at 1.
  rewrite prop_set_prop_eq, List.filter_app, length_app. simpl. lia.
Qed.

(** Closing the leads with the given id keeps the selected lead selected. *)
Lemma find_closed f ls lead :
  (forall l, _id (f l) = _id l) ->
  (forall l, visible caller (f l) = visible caller l) ->
  find (selects caller leadId) ls = Some lead ->
  find (selects caller leadId)
       (map (fun l => if id_eqb (_id l) leadId then f l else l) ls)
  = Some (f lead).
Proof.
  intros Hid Hvis. unfold selects.
  induction ls as [| l ls IH]; simpl; [discriminate |].
  destruct (id_eqb (_id l) leadId) eqn:E; simpl.
  - rewrite Hid, Hvis, E. simpl.
    destruct (visible caller l); [intros [= ->]; reflexivity | exact IH].
  - rewrite E. simpl. exact IH.
Qed.

(** One conversion of a lead the caller can see. *)
Lemma convert_once d lead :
  find_lead caller leadId d = Some lead ->
  exists customer d',
    convert bcrypt_hash caller leadId d = (Ok customer, d')
    /\ customers d' = customers d ++ [customer]
    /\ prop "name" customer = prop "name" lead
    /\ prop "email" customer = prop "email" lead
    /\ prop "phone" customer = prop "phone" lead
    /\ length (activities d') = S (length (activities d))
    /\ find_lead caller leadId d' = Some (close_lead caller customer lead).
Proof.
  intros Hfind. unfold convert. rewrite Hfind.
  unfold create_customer, log_activity, insert_one. simpl.
  do 2 eexists. split; [reflexivity |]. simpl.
  repeat split.
  - rewrite length_app. simpl. lia.
  - unfold find_lead. simpl.
    apply find_closed; auto using close_lead_id, close_lead_visible.
Qed.

(** [n] conversions in a row: [n] customers, [n] recorded conversions. *)
Lemma convert_repeatedly n : forall d lead,
  find_lead caller leadId d = Some lead ->
  exists cs d' lead',
    convert_times bcrypt_hash n caller leadId d = (Ok cs, d')
    /\ length cs = n
    /\ customers d' = customers d ++ cs
    /\ find_lead caller leadId d' = Some lead'
    /\ conversions lead' = (conversions lead + n)%nat
    /\ (n <> 0%nat -> prop "status" lead' = ClosedWon).
Proof.
  induction n as [| n IH]; intros d lead Hfind.
  - exists [], d, lead. simpl. rewrite app_nil_r, Nat.add_0_r.
    repeat split; auto. congruence.
  - destruct (convert_once d lead Hfind)
      as (c & d1 & Hc & Hcust & _ & _ & _ & _ & Hfind1).
    destruct (IH d1 _ Hfind1) as (cs & d2 & lead2 & Hcs & Hlen & Hcust2 & Hfind2 & Hconv & Hst).
    exists (c :: cs), d2, lead2. simpl. rewrite Hc, Hcs.
    split; [reflexivity |]. split; [congruence |].
    split; [rewrite Hcust2, Hcust, <- app_assoc; reflexivity |].
    split; [exact Hfind2 |].
    split; [rewrite Hconv, close_lead_conversions; lia |].
    intros _. destruct n as [| n'].
    + simpl in Hcs. injection Hcs as <- <-.
      rewrite Hfind1 in Hfind2. injection Hfind2 as <-.
      apply close_lead_status.
    + apply Hst. discriminate.
Qed.

(** C3: converting a lead creates exactly one new Customer, made from the
    Lead's name, email and phone, and sets that Lead's status to Closed
    Won, recording exactly one conversion in its history; [n] conversions
    in a row create [n] customers and record [n] conversions, never more
    than one per conversion. *)
Theorem convert_creates_one_customer d lead :
  find_lead caller leadId d = Some lead ->
  (exists customer d' lead',
     convert bcrypt_hash caller leadId d = (Ok customer, d')
     /\ customers d' = customers d ++ [customer]
     /\ prop "name" customer = prop "name" lead
     /\ prop "email" customer = prop "email" lead
     /\ prop "phone" customer = prop "phone" lead
     /\ find_lead caller leadId d' = Some lead'
     /\ prop "status" lead' = VStr "Closed Won"
     /\ conversions lead' = S (conversions lead))
  /\ (forall n,
        exists cs d' lead',
          convert_times bcrypt_hash n caller leadId d = (Ok cs, d')
          /\ length (customers d') = (length (customers d) + n)%nat
          /\ find_lead caller leadId d' = Some lead'
          /\ conversions lead' = (conversions lead + n)%nat).
Proof.
  intros Hfind. split.
  - destruct (convert_once d lead Hfind)
      as (c & d' & Hc & Hcust & Hn & He & Hp & _ & Hfind').
    exists c, d', (close_lead caller c lead).
    repeat (split; [assumption |]).
    split; [apply close_lead_status | apply close_lead_conversions].
  - intros n.
    destruct (convert_repeatedly n d lead Hfind)
      as (cs & d' & lead' & Hcs & Hlen & Hcust & Hfind' & Hconv & _).
    exists cs, d', lead'. split; [exact Hcs |].
    split; [rewrite Hcust, length_app, Hlen; reflexivity |].
    split; assumption.
Qed.

End ConvertProofs.

(** C3 for the sample lead, converted by the agent it is assigned to. *)
Lemma convert_creates_one_customer_sample :
  exists customer d',
    LeadController.convert SeedSpec.sample_hash LeadSpec.sample_caller
      (VId 10) LeadSpec.sample_db = (Ok customer, d')
    /\ customers d' = [customer]
    /\ prop "name" customer = VStr "Alex Patel".
Proof.
  destruct (convert_creates_one_customer SeedSpec.sample_hash
              LeadSpec.sample_caller (VId 10) LeadSpec.sample_db
              LeadSpec.sample_lead eq_refl)
    as ((c & d' & lead' & Hc & Hcust & Hname & _) & _).
  exists c, d'. split; [exact Hc |]. split; [exact Hcust | exact Hname].
Defined.

(** ** The status of a lead *)

Section LeadStatus.

Import Seed SeedSpec LeadController LeadSpec.

Variable bcrypt_hash : string -> string.














End LeadStatus.


(** ** The login page *)

Section LoginPageProofs.

Import LoginPage LoginSpec.

Variable login : Value -> Value -> Client -> Completion * Client.
Variable to_string : Value -> string.

(** C9: when the login call throws, [onSubmit] neither navigates nor
    writes to localStorage: it leaves the client as the call left it, but
    for one alert, which shows the message of the server's response when
    there is one, and 'Login failed' otherwise. *)
Theorem onSubmit_login_fails d c e c1 :
  login (prop "email" d) (prop "password" d) c = (Rejects e, c1) ->
  let c' := onSubmit login to_string d c in
  localStorage c' = localStorage c1
  /\ pushed c' = pushed c1
  /\ alerts c' =
       alerts c1 ++ [if truthy (server_message e) then server_message e
                     else VStr "Login failed"].
Proof.
  intros Hlogin. unfold onSubmit. rewrite Hlogin.
  repeat split.
Qed.

End LoginPageProofs.

(** C9 for a login that the API answers with a 401. *)
Lemma onSubmit_login_fails_sample :
  let c' := LoginPage.onSubmit LoginSpec.failing_login LoginSpec.show
              LoginSpec.form LoginSpec.fresh_client in
  LoginPage.localStorage c' = ∅
  /\ LoginPage.pushed c' = []
  /\ LoginPage.alerts c' = [VStr "Invalid credentials"].
Proof.
  apply (onSubmit_login_fails LoginSpec.failing_login LoginSpec.show
           LoginSpec.form LoginSpec.fresh_client LoginSpec.rejected
           LoginSpec.fresh_client).
  reflexivity.
Defined.

(** ** The embedding at work *)

Section Examples.

Import Seed SeedSpec AuthRoutes RouterSpec LoginPage LoginSpec.

Example email_of_a_name :
  replace_ws "." (toLowerCase "Alex  Patel") = "alex.patel".
Proof. reflexivity. Qed.

Example segments_of_a_pattern : segments "/users/:id" = ["users"; ":id"].
Proof. reflexivity. Qed.

Example delete_user_matches :
  matches (router_delete "/users/:id" [auth; requireRole ["admin"]; ctrl "deleteUser"])
          (mkRequest DELETE "/Users/42/" None VUndefined VUndefined) = true.
Proof. reflexivity. Qed.

Example paths_and_the_pattern_of_a_user :
  map (path_match "/users/:id")
      ["/users/42"; "/users/a%20b"; "/users/%E2%82%AC"; "/users//42";
       "/users/42//"; "/users/"; "users/42"; "/users/%ZZ"; "/users/%C0%80"]
  = [Matched; Matched; Matched; NoMatch; NoMatch; NoMatch; NoMatch;
     Malformed "%ZZ"; Malformed "%C0%80"].
Proof. reflexivity. Qed.

Example malformed_id_ends_with_an_error :
  dispatch agent_token_only pass answer_ok router agent_updates_nobody
  = (Fail (URIError "%ZZ"), []).
Proof. reflexivity. Qed.

Example options_for_the_users :
  dispatch no_token pass answer_ok router
    (mkRequest OPTIONS "/users/42" None VUndefined VUndefined)
  = (Respond (mkResponse 200 (VStr "PATCH,DELETE")), []).
Proof. reflexivity. Qed.

Example largest_phone_number :
  floor_add_mul 6000000000 (two53 - 1) 3999999999 = 9999999999
  /\ floor_add_mul 6000000000 (two53 - 2) 3999999999 = 9999999999
  /\ floor_mul (two53 - 1) 4 = 3.
Proof. repeat split. Qed.

Example sample_run_exits_with_0 :
  (main sample_entropy sample_clock true sample_hash sample_world).1 = 0.
Proof. vm_compute. reflexivity. Qed.

Example sample_run_first_lead :
  head (leads (db (main sample_entropy sample_clock true sample_hash
                     sample_world).2))
  = Some [("_id", VId 10); ("name", VStr "Alex Patel");
          ("email", VStr "alex.patel@mail.com");
          ("phone", VStr "+917644774836"); ("status", VStr "Closed Won");
          ("source", VStr "LinkedIn"); ("assignedAgent", VId 8);
          ("history", VArr [VObj [("action", VStr "seeded")]])].
Proof. vm_compute. reflexivity. Qed.

Example unreachable_database_exits_with_1 :
  (main sample_entropy sample_clock false sample_hash sample_world).1 = 1.
Proof. vm_compute. reflexivity. Qed.

Example anonymous_logout_reaches_controller :
  dispatch no_token pass answer_ok router anonymous_logout
  = (Respond (mkResponse 200 (VObj [])), [ctrl "logout"]).
Proof. reflexivity. Qed.

Example successful_login_stores_and_navigates :
  let ok (_ _ : Value) (c : Client) :=
    (Resolves (VObj [("accessToken", VStr "a.b.c");
                     ("refreshToken", VStr "d.e.f")]), c) in
  let c' := onSubmit ok show form fresh_client in
  localStorage c' !! "crm_refresh" = Some "d.e.f" /\ pushed c' = ["/"]
  /\ alerts c' = [].
Proof. repeat split. Qed.

End Examples.

(** * Part IV: further properties of the three files *)

(** ** Strings *)

Section StringFacts.

Import SeedDetail.

Lemma all_chars_app p s t :
  all_chars p (s +:+ t) = all_chars p s && all_chars p t.
Proof.
  induction s as [| c s IH]; simpl; [reflexivity |].
  rewrite IH, andb_assoc. reflexivity.
Qed.

Lemma lower_ascii_not_upper c : not_upper (lower_ascii c) = true.
Proof. destruct c as [[] [] [] [] [] [] [] []]; reflexivity. Qed.

Lemma toLowerCase_not_upper s : all_chars not_upper (toLowerCase s) = true.
Proof.
  induction s as [| c s IH]; simpl; [reflexivity |].
  rewrite lower_ascii_not_upper, IH. reflexivity.
Qed.

Lemma replace_ws_from_not_ws b r s :
  all_chars not_ws r = true ->
  all_chars not_ws (replace_ws_from b r s) = true.
Proof.
  intros Hr. revert b. induction s as [| c s IH]; intros b; simpl; [reflexivity |].
  destruct (is_ws c) eqn:E.
  - destruct b; [apply IH |]. rewrite all_chars_app, Hr, IH. reflexivity.
  - simpl. unfold not_ws at 1. rewrite E, IH. reflexivity.
Qed.

Lemma replace_ws_from_keeps p b r s :
  all_chars p r = true -> all_chars p s = true ->
  all_chars p (replace_ws_from b r s) = true.
Proof.
  intros Hr. revert b. induction s as [| c s IH]; intros b; simpl; [reflexivity |].
  intros [Hc Hs]%andb_prop.
  destruct (is_ws c).
  - destruct b; [apply IH, Hs |]. rewrite all_chars_app, Hr, IH; auto.
  - simpl. rewrite Hc, IH; auto.
Qed.

Lemma local_part_clean n :
  all_chars not_ws (local_part n) = true
  /\ all_chars not_upper (local_part n) = true.
Proof.
  unfold local_part, replace_ws. split.
  - apply replace_ws_from_not_ws. reflexivity.
  - apply replace_ws_from_keeps; [reflexivity | apply toLowerCase_not_upper].
Qed.

Lemma lower_ascii_ascii c : is_ascii c = true -> is_ascii (lower_ascii c) = true.
Proof. destruct c as [[] [] [] [] [] [] [] []]; vm_compute; congruence. Qed.

Lemma toLowerCase_ascii s :
  all_chars is_ascii s = true -> all_chars is_ascii (toLowerCase s) = true.
Proof.
  induction s as [| c s IH]; simpl; [reflexivity |].
  intros [Hc Hs]%andb_prop. rewrite (lower_ascii_ascii c Hc), (IH Hs).
  reflexivity.
Qed.

Lemma local_part_ascii n :
  all_chars is_ascii n = true -> all_chars is_ascii (local_part n) = true.
Proof.
  intros Hn. unfold local_part, replace_ws.
  apply replace_ws_from_keeps; [reflexivity | apply toLowerCase_ascii, Hn].
Qed.

Lemma local_part_of_name f l :
  f ∈ Seed.first -> l ∈ Seed.last ->
  local_part (f +:+ " " +:+ l) = toLowerCase f +:+ "." +:+ toLowerCase l.
Proof.
  intros Hf Hl.
  assert (H : forallb (fun f => forallb (fun l =>
                String.eqb (local_part (f +:+ " " +:+ l))
                           (toLowerCase f +:+ "." +:+ toLowerCase l))
                Seed.last) Seed.first = true) by (vm_compute; reflexivity).
  rewrite forallb_forall in H. apply list_elem_of_In in Hf, Hl.
  specialize (H f Hf). rewrite forallb_forall in H.
  apply String.eqb_eq, H, Hl.
Qed.

(** A number of [k + 1] decimal digits is printed with [k + 1]
    characters. *)
Lemma pretty_N_go_length (k : nat) : forall (x : N) s,
  (10 ^ N.of_nat k <= x < 10 ^ N.of_nat (S k))%N ->
  String.length (pretty_N_go x s) = (String.length s + S k)%nat.
Proof.
  induction k as [| k IH]; intros x s Hx.
  - change (10 ^ N.of_nat 0)%N with 1%N in Hx.
    change (10 ^ N.of_nat 1)%N with 10%N in Hx.
    rewrite pretty_N_go_step by lia.
    replace (x `div` 10)%N with 0%N by (symmetry; apply N.div_small; lia).
    rewrite pretty_N_go_0. simpl. lia.
  - rewrite pretty_N_go_step.
    2:{ assert (0 < 10 ^ N.of_nat (S k))%N by (apply N.neq_0_lt_0, N.pow_nonzero; lia). lia. }
    rewrite IH.
    + simpl. lia.
    + rewrite !Nat2N.inj_succ, !N.pow_succ_r' in *.
      split.
      * apply N.div_le_lower_bound; lia.
      * apply N.Div0.div_lt_upper_bound; lia.
Qed.

Lemma phone_length p : is_phone p -> String.length p = 13%nat.
Proof.
  intros (k & Hk & ->).
  destruct k as [| q | q]; try lia.
  change (pretty (Z.pos q)) with (pretty (N.pos q)).
  unfold pretty, pretty_N. destruct (decide (N.pos q = 0%N)); [discriminate |].
  change ("+91" +:+ pretty_N_go (N.pos q) EmptyString)
    with (String "+" (String "9" (String "1" (pretty_N_go (N.pos q) EmptyString)))).
  cbn [String.length]. rewrite (pretty_N_go_length 9); [reflexivity |].
  change (10 ^ N.of_nat 9)%N with 1000000000%N.
  change (10 ^ N.of_nat 10)%N with 10000000000%N. lia.
Qed.

End StringFacts.

(** ** The seed script, record by record *)

Section SeedDetailProofs.

Import Seed SeedSpec SeedDetail.

Variable entropy : nat -> Z.
Variable clock : nat -> Z.
Variable bcrypt_hash : string -> string.

Ltac next lem :=
  apply returns_bind; eapply returns_mono; [eapply lem | cbv beta].

Lemma advance_0 w : advance 0 0 w = w.
Proof. destruct w. reflexivity. Qed.

Lemma advance_advance a b c d w :
  advance a b (advance c d w) = advance (a + c) (b + d) w.
Proof. unfold advance. simpl. f_equal; lia. Qed.

Lemma rand_index_bound r len :
  0 <= r < two53 -> (0 < len)%nat ->
  (Z.to_nat (floor_mul r (Z.of_nat len)) < len)%nat.
Proof.
  intros Hr Hlen.
  pose proof (floor_mul_bound r (Z.of_nat len) Hr ltac:(lia)). lia.
Qed.

Lemma random_range w : 0 <= entropy (draws w) mod two53 < two53.
Proof. apply Z.mod_pos_bound. reflexivity. Qed.

(** X1: [rand(arr)] returns an element of [arr] whenever [arr] is not
    empty, and [undefined] when it is; it consumes one random number and
    changes nothing else. *)
Theorem rand_picks_an_element {A : Type} (arr : list A) w :
  exists o,
    rand entropy arr w = (Ok o, advance 1 0 w)
    /\ (arr = [] -> o = None)
    /\ (arr <> [] -> exists x, o = Some x /\ x ∈ arr).
Proof.
  eexists. split; [reflexivity |]. split.
  - intros ->. reflexivity.
  - intros Hne.
    assert (Hlen : (0 < length arr)%nat)
      by (destruct arr; [congruence | simpl; lia]).
    pose proof (rand_index_bound _ _ (random_range w) Hlen) as Hidx.
    destruct (lookup_lt_is_Some_2 _ _ Hidx) as [x Hx].
    exists x. split; [exact Hx |]. eapply list_elem_of_lookup_2, Hx.
Qed.

Lemma rand_adv {A : Type} (arr : list A) w :
  arr <> [] ->
  returns (rand entropy arr) w
    (fun o w' => w' = advance 1 0 w /\ exists x, o = Some x /\ x ∈ arr).
Proof.
  intros Hne.
  assert (Hlen : (0 < length arr)%nat)
    by (destruct arr; [congruence | simpl; lia]).
  pose proof (rand_index_bound _ _ (random_range w) Hlen) as Hidx.
  destruct (lookup_lt_is_Some_2 _ _ Hidx) as [x Hx].
  eapply returns_eq; [reflexivity |]. split; [reflexivity |].
  exists x. split; [exact Hx |]. eapply list_elem_of_lookup_2, Hx.
Qed.

Lemma name_adv w :
  returns (name entropy) w (fun n w' => w' = advance 2 0 w /\ is_name n).
Proof.
  unfold name.
  next @rand_adv; [discriminate |]. intros ? w1 (-> & f & -> & Hf).
  next @rand_adv; [discriminate |]. intros ? w2 (-> & l & -> & Hl).
  apply returns_ret. split; [reflexivity |]. exists f, l. auto.
Qed.

Lemma email_adv n w :
  returns (email entropy n) w
    (fun e w' => w' = advance 1 0 w /\ is_email n e).
Proof.
  unfold email.
  next @rand_adv; [discriminate |]. intros ? w1 (-> & d & -> & Hd).
  apply returns_ret. split; [reflexivity |]. exists d. auto.
Qed.

Lemma phone_adv w :
  returns (phone entropy) w (fun p w' => w' = advance 1 0 w /\ is_phone p).
Proof.
  eapply returns_eq; [reflexivity |]. split; [reflexivity |].
  eexists. split; [| reflexivity].
  pose proof (floor_add_mul_bounds 6000000000 _ 3999999999 (random_range w)
                ltac:(lia) ltac:(lia) ltac:(reflexivity)).
  lia.
Qed.

Lemma lead_body_adv a1 a2 i acc w :
  returns (lead_body entropy a1 a2 i acc) w
    (fun acc' w' => w' = advance 6 0 w /\
       exists o, acc' = acc ++ [o] /\ lead_at (_id a1) (_id a2) i o).
Proof.
  unfold lead_body.
  next name_adv. intros n w1 (-> & Hn).
  next email_adv. intros e w2 (-> & He).
  next phone_adv. intros p w3 (-> & Hp).
  next @rand_adv; [discriminate |]. intros ? w4 (-> & st & -> & Hst).
  next @rand_adv; [discriminate |]. intros ? w5 (-> & src & -> & Hsrc).
  apply returns_ret. split; [reflexivity |].
  eexists. split; [reflexivity |].
  exists n, e, p, st, src. auto 10.
Qed.

Lemma customer_body_adv a1 a2 i acc w :
  returns (customer_body entropy a1 a2 i acc) w
    (fun acc' w' => w' = advance 5 0 w /\
       exists o, acc' = acc ++ [o] /\ customer_at (_id a1) (_id a2) i o).
Proof.
  unfold customer_body.
  next name_adv. intros n w1 (-> & Hn).
  next @rand_adv; [discriminate |]. intros ? w2 (-> & c & -> & Hc).
  next email_adv. intros e w3 (-> & He).
  next phone_adv. intros p w4 (-> & Hp).
  apply returns_ret. split; [reflexivity |].
  eexists. split; [reflexivity |].
  exists n, c, e, p. auto 10.
Qed.

Lemma with_ids_lookup n os k o :
  os !! k = Some o -> with_ids n os !! k = Some (("_id", VId (n + k)) :: o).
Proof.
  revert n k. induction os as [| o' os IH]; intros n [| k] H;
    try discriminate H; simpl in *.
  - injection H as ->. rewrite Nat.add_0_r. reflexivity.
  - rewrite Nat.add_succ_r. exact (IH (S n) k H).
Qed.

Lemma related_of_adv n (cs : list Obj) l0 i w :
  head (leads (db w)) = Some l0 -> length cs = 5%nat ->
  returns (related_of (with_ids n cs) i) w
    (fun r w' => w' = w /\
       r = (if Nat.eqb (i mod 2) 0 then "Lead" else "Customer",
            if Nat.eqb (i mod 2) 0 then _id l0 else VId (n + i mod 5))).
Proof.
  intros Hl0 Hcs. unfold related_of.
  destruct (Nat.eqb (i mod 2) 0).
  - apply returns_bind. eapply returns_eq; [reflexivity |].
    unfold Mongo.findOne. simpl docs. rewrite Hl0.
    apply returns_bind. eapply returns_eq; [reflexivity |].
    apply returns_ret. auto.
  - rewrite with_ids_length, Hcs.
    assert (Hlt : (i mod 5 < length cs)%nat)
      by (rewrite Hcs; apply Nat.mod_upper_bound; discriminate).
    destruct (lookup_lt_is_Some_2 _ _ Hlt) as [c Hc].
    rewrite (with_ids_lookup _ _ _ _ Hc).
    apply returns_bind. eapply returns_eq; [reflexivity |].
    apply returns_ret. auto.
Qed.

Lemma task_body_adv a1 a2 n (cs : list Obj) l0 i acc w :
  head (leads (db w)) = Some l0 -> length cs = 5%nat ->
  returns (task_body entropy clock a1 a2 (with_ids n cs) i acc) w
    (fun acc' w' => w' = advance 2 1 w /\
       exists o, acc' = acc ++ [o] /\
         task_at (clock (ticks w)) (_id l0) (fun k => VId (n + k))
                 (_id a1) (_id a2) i o).
Proof.
  intros Hl0 Hcs. unfold task_body.
  next related_of_adv; [eassumption.. |]. intros ? w1 (-> & ->).
  apply returns_bind. eapply returns_eq; [reflexivity |].
  next @rand_adv; [discriminate |]. intros ? w3 (-> & st & -> & Hst).
  next @rand_adv; [discriminate |]. intros ? w4 (-> & pr & -> & Hpr).
  apply returns_ret. split; [reflexivity |].
  eexists. split; [reflexivity |].
  exists st, pr. split; [| auto].
  replace ((Z.of_nat i - 3) * 86400000)
    with ((Z.of_nat i - 3) * 24 * 60 * 60 * 1000) by lia.
  reflexivity.
Qed.

(** A loop whose body pushes one object described by [P] and consumes a
    fixed number of random numbers and clock readings. *)
Lemma for_loop_indexed (P : World -> nat -> Obj -> Prop) (d : Db)
    (dr tk : nat) (body : nat -> list Obj -> M (list Obj)) :
  (forall i acc w, db w = d ->
     returns (body i acc) w
       (fun acc' w' => w' = advance dr tk w /\
          exists o, acc' = acc ++ [o] /\ P w i o)) ->
  forall n lo acc w, db w = d ->
    returns (for_loop body lo n acc) w
      (fun acc' w' => w' = advance (n * dr) (n * tk) w /\
         exists os, acc' = acc ++ os /\ length os = n /\
           forall k o, os !! k = Some o ->
             P (advance (k * dr) (k * tk) w) (lo + k)%nat o).
Proof.
  intros Hbody n. induction n as [| n IH]; intros lo acc w Hw; simpl.
  - apply returns_ret. split; [symmetry; apply advance_0 |].
    exists []. rewrite app_nil_r. repeat split. intros k o H. discriminate H.
  - apply returns_bind.
    eapply returns_mono; [apply Hbody, Hw |].
    intros acc1 w1 (-> & o & -> & Ho). cbv beta.
    eapply returns_mono; [apply IH; exact Hw |].
    intros acc2 w2 (-> & os & -> & Hlen & Hos).
    split.
    { rewrite advance_advance. f_equal; lia. }
    exists (o :: os). rewrite <- app_assoc. simpl.
    split; [reflexivity |]. split; [congruence |].
    intros [| k] o' Hk; simpl in Hk.
    + injection Hk as <-. rewrite advance_0, Nat.add_0_r. exact Ho.
    + specialize (Hos k o' Hk). rewrite advance_advance in Hos.
      replace (lo + S k)%nat with (S lo + k)%nat by lia.
      replace (S k * dr)%nat with (k * dr + dr)%nat by lia.
      replace (S k * tk)%nat with (k * tk + tk)%nat by lia.
      exact Hos.
Qed.


Lemma save_all_explicit m os d :
  m <> User ->
  save_all bcrypt_hash m os d
  = (Ok (with_ids (next_id d) os), appended m os d).
Proof.
  intros Hm. revert d. induction os as [| o os IH]; intros d.
  - simpl. f_equal. unfold appended. simpl. rewrite app_nil_r.
    destruct d, m; reflexivity.
  - simpl save_all.
    assert (H1 : save bcrypt_hash m o d
                 = (Ok (("_id", VId (next_id d)) :: o), appended m [o] d)).
    { unfold save, appended. destruct m; try congruence; reflexivity. }
    rewrite H1, IH. f_equal.
    + destruct m; reflexivity.
    + unfold appended.
      destruct m; try congruence; simpl;
        rewrite <- app_assoc, Nat.add_succ_r; reflexivity.
Qed.

Lemma insertMany_explicit m os w :
  m <> User -> forallb (valid m) os = true ->
  insertMany bcrypt_hash m os w
  = (Ok (with_ids (next_id (db w)) os), set_db (appended m os (db w)) w).
Proof.
  intros Hm Hv. unfold insertMany, insert_many.
  rewrite Hv, save_all_explicit by exact Hm.
  reflexivity.
Qed.

Lemma lead_ats_valid a1 a2 lo (os : list Obj) :
  (forall k o, os !! k = Some o -> lead_at a1 a2 (lo + k)%nat o) ->
  forallb (valid Lead) os = true.
Proof.
  intros H. apply forallb_forall. intros o Ho.
  apply list_elem_of_In, list_elem_of_lookup in Ho as [k Hk].
  destruct (H k o Hk) as (n & e & p & st & src & -> & _ & _ & _ & Hst & _).
  apply (seeded_status_valid st); [exact Hst | reflexivity].
Qed.

Lemma seed_in_detail w :
  returns (seed entropy clock true bcrypt_hash) w
    (fun _ w' => seeded_in_detail clock bcrypt_hash w w').
Proof.
  unfold seed.
  do 8 (apply returns_bind; eapply returns_eq; [reflexivity |]).
  set (i0 := next_id (db w)).
  set (adm := user_doc bcrypt_hash i0 "Admin User" "admin@crm.com" "Admin@123" "admin").
  set (a1 := user_doc bcrypt_hash (S i0) "Agent One" "agent1@crm.com" "Agent@123" "agent").
  set (a2 := user_doc bcrypt_hash (S (S i0)) "Agent Two" "agent2@crm.com" "Agent@123" "agent").
  match goal with
  | |- returns (mbind _ (for_loop (lead_body _ ?x ?y) _ _ _)) _ _ =>
      change x with a1; change y with a2
  end.
  match goal with
  | |- returns _ ?w3 _ =>
      change w3 with
        (mkWorld (mkDb [adm; a1; a2] [] [] [] (activities (db w)) (3 + i0))
                 true (draws w) (ticks w) (console w))
  end.
  (* leads *)
  apply returns_bind. eapply returns_mono.
  { eapply (for_loop_indexed (fun _ => lead_at (_id a1) (_id a2)) _ 6 0);
      [| reflexivity].
    intros i acc w' _. apply lead_body_adv. }
  cbv beta. intros ? ? (-> & lds & -> & Hllen & Hlds).
  apply returns_bind. eapply returns_eq;
    [apply insertMany_explicit;
       [discriminate | exact (lead_ats_valid _ _ _ _ Hlds)] |].
  (* customers *)
  apply returns_bind. eapply returns_mono.
  { eapply (for_loop_indexed (fun _ => customer_at (_id a1) (_id a2)) _ 5 0);
      [| reflexivity].
    intros i acc w' _. apply customer_body_adv. }
  cbv beta. intros ? ? (-> & cs & -> & Hclen & Hcs).
  apply returns_bind. eapply returns_eq;
    [apply insertMany_explicit;
       [discriminate | apply valid_others; discriminate] |].
  (* tasks *)
  assert (Hl0 : (0 < length lds)%nat) by lia.
  destruct (lookup_lt_is_Some_2 _ _ Hl0) as [o0 Ho0].
  apply returns_bind. eapply returns_mono.
  { eapply (for_loop_indexed
              (fun w' => task_at (clock (ticks w'))
                           (VId (3 + i0)) (fun k => VId (13 + i0 + k))
                           (_id a1) (_id a2)) _ 2 1);
      [| reflexivity].
    intros i acc w' Hw'.
    eapply returns_mono.
    - eapply (task_body_adv _ _ _ cs (("_id", VId (3 + i0)) :: o0));
        [| exact Hclen].
      rewrite Hw'. cbn. rewrite head_lookup.
      rewrite (with_ids_lookup _ _ _ _ Ho0), Nat.add_0_r. reflexivity.
    - cbv beta. intros ? ? (-> & o & -> & Ho).
      split; [reflexivity |]. exists o. split; [reflexivity |].
      cbn in Ho. rewrite Hllen in Ho. exact Ho. }
  cbv beta. intros ? ? (-> & ts & -> & Htlen & Hts).
  apply returns_bind. eapply returns_eq;
    [apply insertMany_explicit;
       [discriminate | apply valid_others; discriminate] |].
  apply returns_bind; eapply returns_eq; [reflexivity |].
  eapply returns_eq; [reflexivity |].
  constructor; cbn.
  - reflexivity.
  - rewrite with_ids_length. split; [exact Hllen |].
    intros i Hi. rewrite <- Hllen in Hi.
    destruct (lookup_lt_is_Some_2 _ _ Hi) as [o Ho].
    exists o. split.
    + apply (with_ids_lookup (3 + i0)), Ho.
    + apply (Hlds i o Ho).
  - rewrite with_ids_length. split; [exact Hclen |].
    intros i Hi. rewrite <- Hclen in Hi.
    destruct (lookup_lt_is_Some_2 _ _ Hi) as [o Ho].
    exists o. split.
    + rewrite Hllen. apply (with_ids_lookup (13 + i0)), Ho.
    + apply (Hcs i o Ho).
  - rewrite with_ids_length. split; [exact Htlen |].
    intros i Hi. rewrite <- Htlen in Hi.
    destruct (lookup_lt_is_Some_2 _ _ Hi) as [o Ho].
    exists o. split.
    + rewrite Hclen, Hllen. apply (with_ids_lookup (18 + i0)), Ho.
    + specialize (Hts i o Ho). cbn in Hts.
      rewrite Nat.mul_1_r in Hts. exact Hts.
  - reflexivity.
  - rewrite Htlen, Hclen, Hllen. reflexivity.
  - reflexivity.
  - reflexivity.
  - reflexivity.
  - reflexivity.
Qed.

End SeedDetailProofs.

(** ** The seed script: what its records look like *)

Section SeedExtras.

Import Seed SeedSpec SeedDetail.

Variable entropy : nat -> Z.
Variable clock : nat -> Z.
Variable bcrypt_hash : string -> string.

Lemma main_in_detail w :
  exists w', main entropy clock true bcrypt_hash w = (0, w')
             /\ seeded_in_detail clock bcrypt_hash w w'.
Proof.
  destruct (seed_in_detail entropy clock bcrypt_hash w) as ([] & w' & Hrun & Hd).
  exists w'. unfold main. rewrite Hrun. auto.
Qed.

(** X2: [name()] always returns a first name of the list, a blank and a
    last name of the list (never the text "undefined"), and consumes two
    random numbers. *)
Theorem name_is_first_and_last w :
  exists f l,
    f ∈ first /\ l ∈ last
    /\ name entropy w = (Ok (f +:+ " " +:+ l), advance 2 0 w).
Proof.
  destruct (name_adv entropy w) as (n & w' & Hrun & -> & f & l & Hf & Hl & ->).
  exists f, l. auto.
Qed.

(** X3: for ASCII text [n], [email(n)] returns the lower-cased [n] with
    its runs of white space turned into dots, then [@] and one of the four
    domains; the part before the [@] holds no white space and no upper-case
    letter.  One random number is consumed. *)
Theorem email_local_part_clean n w :
  all_chars is_ascii n = true ->
  exists d,
    d ∈ domains
    /\ email entropy n w = (Ok (local_part n +:+ "@" +:+ d), advance 1 0 w)
    /\ all_chars is_ascii (local_part n) = true
    /\ all_chars not_ws (local_part n) = true
    /\ all_chars not_upper (local_part n) = true.
Proof.
  intros Hn.
  destruct (email_adv entropy n w) as (e & w' & Hrun & -> & d & Hd & ->).
  exists d. split; [exact Hd |]. split; [exact Hrun |].
  split; [apply local_part_ascii, Hn | apply local_part_clean].
Qed.

(** X4: [phone()] returns [+91] followed by a number between 6000000000
    and 9999999999, that is, by exactly ten digits: the string is 13
    characters long.  Both ends are reached: the sum is rounded to a double
    before [Math.floor] is applied, so that the largest result of
    [Math.random()] gives 9999999999; the smallest gives 6000000000. *)
Theorem phone_has_ten_digits w :
  (exists k,
     6000000000 <= k <= 9999999999
     /\ phone entropy w = (Ok ("+91" +:+ pretty k), advance 1 0 w)
     /\ String.length ("+91" +:+ pretty k) = 13%nat)
  /\ (entropy (draws w) mod two53 = two53 - 1 ->
      phone entropy w = (Ok "+919999999999", advance 1 0 w))
  /\ (entropy (draws w) mod two53 = 0 ->
      phone entropy w = (Ok "+916000000000", advance 1 0 w)).
Proof.
  split; [| split].
  - destruct (phone_adv entropy w) as (p & w' & Hrun & -> & k & Hk & ->).
    exists k. split; [exact Hk |]. split; [exact Hrun |].
    apply phone_length. exists k. auto.
  - intros H. unfold phone, random, mbind, M_bind, mret, M_ret.
    rewrite H. reflexivity.
  - intros H. unfold phone, random, mbind, M_bind, mret, M_ret.
    rewrite H. reflexivity.
Qed.

(** The [i]-th document of a seeded collection. *)
Lemma stored_at_elem (docs : list Doc) n len (P : nat -> Obj -> Prop) r :
  length docs = len ->
  (forall i, (i < len)%nat -> exists o, stored_at docs n i o /\ P i o) ->
  r ∈ docs ->
  exists i o, (i < len)%nat /\ r = ("_id", VId (n + i)) :: o /\ P i o.
Proof.
  intros Hlen Hall [i Hi]%list_elem_of_lookup.
  assert (Hlt : (i < len)%nat) by (rewrite <- Hlen; eapply lookup_lt_Some, Hi).
  destruct (Hall i Hlt) as (o & Hst & Ho). unfold stored_at in Hst.
  assert (E : Some r = Some (("_id", VId (n + i)) :: o))
    by (etransitivity; [symmetry; exact Hi | exact Hst]).
  injection E as ->. exists i, o. auto.
Qed.

Lemma stored_at_lookup (docs : list Doc) n len (P : nat -> Obj -> Prop) i r :
  length docs = len ->
  (forall i, (i < len)%nat -> exists o, stored_at docs n i o /\ P i o) ->
  docs !! i = Some r ->
  exists o, r = ("_id", VId (n + i)) :: o /\ P i o.
Proof.
  intros Hlen Hall Hi.
  assert (Hlt : (i < len)%nat) by (rewrite <- Hlen; eapply lookup_lt_Some, Hi).
  destruct (Hall i Hlt) as (o & Hst & Ho). unfold stored_at in Hst.
  assert (E : Some r = Some (("_id", VId (n + i)) :: o))
    by (etransitivity; [symmetry; exact Hi | exact Hst]).
  injection E as ->. exists o. auto.
Qed.

Lemma string_app_assoc (s t u : string) :
  (s +:+ t) +:+ u = s +:+ (t +:+ u).
Proof.
  induction s as [| c s IH]; [reflexivity |].
  change (String c ((s +:+ t) +:+ u) = String c (s +:+ (t +:+ u))).
  rewrite IH. reflexivity.
Qed.

Lemma contact_of_name n e p :
  is_name n -> is_email n e -> is_phone p ->
  exists f l d,
    f ∈ first /\ l ∈ last /\ d ∈ domains
    /\ n = f +:+ " " +:+ l
    /\ e = toLowerCase f +:+ "." +:+ toLowerCase l +:+ "@" +:+ d
    /\ String.length p = 13%nat.
Proof.
  intros (f & l & Hf & Hl & ->) (d & Hd & ->) Hp.
  exists f, l, d. repeat (split; [assumption || reflexivity |]).
  split; [| apply phone_length, Hp].
  rewrite (local_part_of_name f l Hf Hl).
  rewrite !string_app_assoc. reflexivity.
Qed.

(** X5: every seeded lead and customer has a name made of a listed first
    and last name, an email made from that very name (lower case, a dot
    for the blank) at one of the four domains, and a phone of 13
    characters. *)
Theorem seed_contact_details w :
  exists w',
    main entropy clock true bcrypt_hash w = (0, w')
    /\ forall r, r ∈ leads (db w') \/ r ∈ customers (db w') ->
         exists f l d p,
           f ∈ first /\ l ∈ last /\ d ∈ domains
           /\ prop "name" r = VStr (f +:+ " " +:+ l)
           /\ prop "email" r
              = VStr (toLowerCase f +:+ "." +:+ toLowerCase l +:+ "@" +:+ d)
           /\ prop "phone" r = VStr p /\ String.length p = 13%nat.
Proof.
  destruct (main_in_detail w) as (w' & Hrun & Hd).
  exists w'. split; [exact Hrun |].
  destruct Hd as [_ [Hll Hl] [Hcl Hc] _ _ _ _ _ _ _].
  intros r [Hr | Hr].
  - destruct (stored_at_elem _ _ _ _ r Hll Hl Hr)
      as (i & o & _ & -> & n & e & p & st & src & -> & Hn & He & Hp & _).
    destruct (contact_of_name n e p Hn He Hp)
      as (f & l & d & Hf & Hlst & Hdm & -> & -> & Hlen).
    exists f, l, d, p. auto 10.
  - destruct (stored_at_elem _ _ _ _ r Hcl Hc Hr)
      as (i & o & _ & -> & n & co & e & p & -> & Hn & He & Hp & _).
    destruct (contact_of_name n e p Hn He Hp)
      as (f & l & d & Hf & Hlst & Hdm & -> & -> & Hlen).
    exists f, l, d, p. auto 10.
Qed.

(** X6: the loops hand their records to the two agents in turn: the
    [i]-th lead, customer and task belongs to the first agent when [i] is
    even and to the second one when [i] is odd. *)
Theorem seed_agents_alternate w :
  exists w' adm a1 a2,
    main entropy clock true bcrypt_hash w = (0, w')
    /\ users (db w') = [adm; a1; a2]
    /\ (forall i r, leads (db w') !! i = Some r ->
          prop "assignedAgent" r = agent_at (_id a1) (_id a2) i)
    /\ (forall i r, customers (db w') !! i = Some r ->
          prop "owner" r = agent_at (_id a1) (_id a2) i)
    /\ (forall i r, tasks (db w') !! i = Some r ->
          prop "owner" r = agent_at (_id a1) (_id a2) i).
Proof.
  destruct (main_in_detail w) as (w' & Hrun & Hd).
  destruct Hd as [Hu [Hll Hl] [Hcl Hc] [Htl Ht] _ _ _ _ _ _].
  do 4 eexists. split; [exact Hrun |]. split; [exact Hu |].
  split; [| split]; intros i r Hi.
  - destruct (stored_at_lookup _ _ _ _ i r Hll Hl Hi)
      as (o & -> & n & e & p & st & src & -> & _). reflexivity.
  - destruct (stored_at_lookup _ _ _ _ i r Hcl Hc Hi)
      as (o & -> & n & co & e & p & -> & _). reflexivity.
  - destruct (stored_at_lookup _ _ _ _ i r Htl Ht Hi)
      as (o & -> & st & pr & -> & _). reflexivity.
Qed.

(** X7: the tasks with an even index are all related to one and the same
    lead, the first of the collection; a task with an odd index [i] is
    related to the customer of index [i % 5], so that the tasks 1, 3, 5, 7
    go to the customers 1, 3, 0, 2. *)
Theorem seed_task_targets w :
  exists w' lead,
    main entropy clock true bcrypt_hash w = (0, w')
    /\ head (leads (db w')) = Some lead
    /\ forall i t, tasks (db w') !! i = Some t ->
         if Nat.eqb (i mod 2) 0
         then prop "relatedType" t = VStr "Lead"
              /\ prop "relatedId" t = _id lead
         else prop "relatedType" t = VStr "Customer"
              /\ exists c, customers (db w') !! (i mod 5)%nat = Some c
                           /\ prop "relatedId" t = _id c.
Proof.
  destruct (main_in_detail w) as (w' & Hrun & Hd).
  destruct Hd as [_ [Hll Hl] [Hcl Hc] [Htl Ht] _ _ _ _ _ _].
  destruct (Hl 0%nat ltac:(lia)) as (o0 & Hst0 & _). unfold stored_at in Hst0.
  exists w'. eexists. split; [exact Hrun |].
  split; [rewrite head_lookup; exact Hst0 |].
  intros i t Hi.
  destruct (stored_at_lookup _ _ _ _ i t Htl Ht Hi)
    as (o & -> & st & pr & -> & _).
  destruct (Nat.eqb (i mod 2) 0).
  - split; [reflexivity |]. unfold _id. cbn [prop String.eqb Ascii.eqb Bool.eqb].
    rewrite Nat.add_0_r. reflexivity.
  - split; [reflexivity |].
    assert (Hlt : (i mod 5 < 5)%nat) by (apply Nat.mod_upper_bound; discriminate).
    destruct (Hc _ Hlt) as (c & Hstc & _). unfold stored_at in Hstc.
    eexists. split; [exact Hstc | reflexivity].
Qed.

(** X8: the [i]-th task is titled [Follow up i+1] and is due [i - 3] days
    after the clock reading of its iteration: the first three tasks are
    already past due when they are created. *)
Theorem seed_task_schedule w :
  exists w',
    main entropy clock true bcrypt_hash w = (0, w')
    /\ forall i t, tasks (db w') !! i = Some t ->
         prop "title" t = VStr ("Follow up " +:+ pretty (i + 1)%nat)
         /\ prop "dueDate" t
            = VDate (clock (i + ticks w)%nat + (Z.of_nat i - 3) * 86400000).
Proof.
  destruct (main_in_detail w) as (w' & Hrun & Hd).
  destruct Hd as [_ _ _ [Htl Ht] _ _ _ _ _ _].
  exists w'. split; [exact Hrun |]. intros i t Hi.
  destruct (stored_at_lookup _ _ _ _ i t Htl Ht Hi)
    as (o & -> & st & pr & -> & _).
  split; reflexivity.
Qed.

(** X9: every seeded lead has a source of the five-value list and a
    history of the single entry [{action: 'seeded'}]; every customer has a
    company of the list and the tags [['vip']]; every task has a status
    among Open, In Progress, Done and a priority among Low, Medium,
    High. *)
Theorem seed_record_shapes w :
  exists w',
    main entropy clock true bcrypt_hash w = (0, w')
    /\ (forall r, r ∈ leads (db w') ->
          (exists src, prop "source" r = VStr src /\ src ∈ sources)
          /\ prop "history" r = VArr [VObj [("action", VStr "seeded")]])
    /\ (forall r, r ∈ customers (db w') ->
          (exists c, prop "company" r = VStr c /\ c ∈ companies)
          /\ prop "tags" r = VArr [VStr "vip"])
    /\ (forall r, r ∈ tasks (db w') ->
          (exists st, prop "status" r = VStr st /\ st ∈ task_statuses)
          /\ (exists pr, prop "priority" r = VStr pr /\ pr ∈ priorities)).
Proof.
  destruct (main_in_detail w) as (w' & Hrun & Hd).
  destruct Hd as [_ [Hll Hl] [Hcl Hc] [Htl Ht] _ _ _ _ _ _].
  exists w'. split; [exact Hrun |]. split; [| split]; intros r Hr.
  - destruct (stored_at_elem _ _ _ _ r Hll Hl Hr)
      as (i & o & _ & -> & n & e & p & st & src & -> & _ & _ & _ & _ & Hsrc).
    split; [exists src; auto | reflexivity].
  - destruct (stored_at_elem _ _ _ _ r Hcl Hc Hr)
      as (i & o & _ & -> & n & co & e & p & -> & _ & _ & _ & Hco).
    split; [exists co; auto | reflexivity].
  - destruct (stored_at_elem _ _ _ _ r Htl Ht Hr)
      as (i & o & _ & -> & st & pr & -> & Hst & Hpr).
    split; [exists st; auto | exists pr; auto].
Qed.

(** X10: a successful run leaves the activities alone (no
    [deleteMany] reaches them), prints exactly one line, closes the
    connection and consumes 101 random numbers and 8 clock readings. *)
Theorem seed_leaves_the_rest w :
  exists w',
    main entropy clock true bcrypt_hash w = (0, w')
    /\ activities (db w') = activities (db w)
    /\ console w' = console w ++ [VStr "✅ Seed complete"]
    /\ connected w' = false
    /\ draws w' = (101 + draws w)%nat
    /\ ticks w' = (8 + ticks w)%nat.
Proof.
  destruct (main_in_detail w) as (w' & Hrun & Hd).
  destruct Hd as [_ _ _ _ Ha _ Hc Hco Hdr Htk].
  exists w'. auto 10.
Qed.

Lemma bind_ok {A B} (m : M A) (k : A -> M B) w a w1 :
  m w = (Ok a, w1) -> (m ≫= k) w = k a w1.
Proof. intros H. unfold mbind, M_bind. rewrite H. reflexivity. Qed.

Lemma bind_throw {A B} (m : M A) (k : A -> M B) w e w1 :
  m w = (Throw e, w1) -> (m ≫= k) w = (Throw e, w1).
Proof. intros H. unfold mbind, M_bind. rewrite H. reflexivity. Qed.

(** X11: what the User, Lead, Customer and Task collections held before
    has no influence on a successful run: the result, and the whole final
    state, are the same for any prior content of the four collections. *)
Theorem seed_forgets_the_collections us ls cs ts w :
  main entropy clock true bcrypt_hash (with_collections us ls cs ts w)
  = main entropy clock true bcrypt_hash w.
Proof.
  unfold main.
  assert (H : seed entropy clock true bcrypt_hash (with_collections us ls cs ts w)
              = seed entropy clock true bcrypt_hash w).
  { unfold seed.
    do 2 (erewrite (bind_ok (connectDB true)) by reflexivity); cbv beta.
    do 2 (erewrite (bind_ok (deleteMany User)) by reflexivity); cbv beta.
    do 2 (erewrite (bind_ok (deleteMany Lead)) by reflexivity); cbv beta.
    do 2 (erewrite (bind_ok (deleteMany Customer)) by reflexivity); cbv beta.
    do 2 (erewrite (bind_ok (deleteMany Task)) by reflexivity); cbv beta.
    reflexivity. }
  rewrite H. reflexivity.
Qed.

(** X12: the script always ends with the connection closed.  It exits
    with 0 when the database can be reached and with 1 when it cannot; in
    the latter case the error is the last thing on the console and the
    database is as it was: nothing is deleted before the connection is
    there. *)
Theorem main_always_disconnects db_up w :
  let run := main entropy clock db_up bcrypt_hash w in
  connected run.2 = false
  /\ (run.1 = 0 <-> db_up = true)
  /\ (run.1 = 1 <-> db_up = false)
  /\ (db_up = false ->
      db run.2 = db w /\ exists e, console run.2 = console w ++ [e]).
Proof.
  destruct db_up.
  - destruct (main_in_detail w) as (w' & Hrun & Hd).
    cbv zeta. rewrite Hrun. simpl. destruct Hd.
    repeat split; auto; discriminate.
  - cbv zeta. unfold main, seed.
    erewrite (bind_throw (connectDB false)) by reflexivity. cbn.
    repeat split; try discriminate; eauto.
Qed.

End SeedExtras.

(** ** The auth router: routing *)

Section RouterExtras.

Import AuthRoutes RouterSpec RouterDetail.

Variable verify : string -> option Obj.
Variable validate : string -> Request -> Outcome.
Variable controller : string -> Request -> Outcome.

(** X13: no route of the auth router shadows another: a request matches
    at most one of the seven routes. *)
Theorem routes_are_disjoint req r1 r2 :
  r1 ∈ router -> r2 ∈ router ->
  matches r1 req = true -> matches r2 req = true -> r1 = r2.
Proof.
  intros Hr1 Hr2 H1 H2.
  (* two routes that match the same request overlap: they answer a common
     method and their patterns may share a path *)
  pose proof (both_match_overlap r1 r2 req H1 H2) as Ho.
  (* and no two of the seven routes do *)
  exact (router_overlap_free r1 r2 Hr1 Hr2 Ho).
Qed.

(** X14: the router hands a request to the route it is for.  When the
    request matches the route and the stack of the route answers it or
    fails, the outcome of the router, and the handlers it ran, are those of
    that stack.  When the pattern of the route fits the path but the piece
    under [:id] cannot be percent-decoded, the router ends with the
    URIError of that piece (status 400) and no handler runs.  A request for
    a route is in one of the two cases. *)
Theorem dispatch_runs_the_matching_stack r req :
  r ∈ router ->
  (matches r req = true ->
   forall o t,
     run_stack verify validate controller (stack r) req = (o, t) ->
     (forall req', o <> Next req') ->
     dispatch verify validate controller router req = (o, t))
  /\ (forall seg,
        path_match (route_path r) (path req) = Malformed seg ->
        decodable seg = false
        /\ dispatch verify validate controller router req
           = (Fail (URIError seg), []))
  /\ (fits r req = true ->
      matches r req = true
      \/ exists seg, path_match (route_path r) (path req) = Malformed seg).
Proof.
  intros Hr. split; [| split].
  - intros Hm o t. apply router_handles; assumption.
  - intros seg Hp. split; [apply (malformed_ill_formed _ _ _ Hp) |].
    apply (router_malformed _ _ _ r); assumption.
  - intros Hfit. destruct (fits_cases r req Hfit) as [H | [_ H]]; auto.
Qed.





Ltac in_router :=
  unfold router; repeat first [apply list_elem_of_here | apply list_elem_of_further].

(** X16: on POST /login and POST /refresh the validation rules run before
    the controller, whatever the headers: when they answer (or fail) the
    controller is not invoked, and when they pass the request on, the
    controller's answer to the passed request is the router's. *)
Theorem validation_gates_the_controller name req :
  name ∈ ["login"; "refresh"] ->
  matches (router_post ("/" +:+ name) [rules name; ctrl name]) req = true ->
  (forall res, validate name req = Respond res ->
     dispatch verify validate controller router req
     = (Respond res, [rules name]))
  /\ (forall e, validate name req = Fail e ->
       dispatch verify validate controller router req
       = (Fail e, [rules name]))
  /\ (forall req' res,
       validate name req = Next req' -> controller name req' = Respond res ->
       dispatch verify validate controller router req
       = (Respond res, [rules name; ctrl name])).
Proof.
  intros Hname Hm.
  assert (Hr : router_post ("/" +:+ name) [rules name; ctrl name] ∈ router).
  { repeat (apply elem_of_cons in Hname as [-> | Hname]);
      [in_router | in_router | inversion Hname]. }
  split; [| split].
  - intros res Hv. apply (router_handles _ _ _ _ req _ _ Hr Hm);
      [| discriminate].
    simpl. rewrite Hv. reflexivity.
  - intros e Hv. apply (router_handles _ _ _ _ req _ _ Hr Hm);
      [| discriminate].
    simpl. rewrite Hv. reflexivity.
  - intros req' res Hv Hc.
    apply (router_handles _ _ _ _ req _ _ Hr Hm); [| discriminate].
    simpl. rewrite Hv, Hc. reflexivity.
Qed.

(** X17: on a route guarded by [auth] and [requireRole('admin')], a
    request of a caller whose token carries the role 'admin' that matches
    the route goes through both middlewares (as modelled from spec section
    4.2): the rest of the stack runs on the request [auth] has passed on,
    which has the method, path, header and body of the request received,
    and what the rest of the stack answers is the router's answer.  A
    request of that caller whose [:id] cannot be percent-decoded is ended
    with the URIError like anybody else's. *)
Theorem admin_passes_the_gate req r claims rest :
  r ∈ router -> fits r req = true ->
  stack r = auth :: requireRole ["admin"] :: rest ->
  identity verify req = Some claims -> prop "role" claims = VStr "admin" ->
  (matches r req = true ->
   exists req',
     auth_middleware verify req = Next req'
     /\ method req' = method req /\ path req' = path req
     /\ authorization req' = authorization req /\ body req' = body req
     /\ forall o t,
          run_stack verify validate controller rest req' = (o, t) ->
          (forall req'', o <> Next req'') ->
          dispatch verify validate controller router req
          = (o, auth :: requireRole ["admin"] :: t))
  /\ (matches r req = false ->
      exists seg,
        path_match (route_path r) (path req) = Malformed seg
        /\ dispatch verify validate controller router req
           = (Fail (URIError seg), [])).
Proof.
  intros Hr Hfit Hst Hid Hrole. split.
  - intros Hm.
    eexists. split; [unfold auth_middleware; rewrite Hid; reflexivity |].
    do 4 (split; [reflexivity |]).
    intros o t Hrest Ho.
    apply (router_handles _ _ _ r req); try assumption.
    rewrite Hst. simpl. unfold auth_middleware. rewrite Hid, Hrole.
    unfold requireRole_middleware. simpl. rewrite Hrole in Hrest.
    rewrite Hrest. reflexivity.
  - intros Hm. destruct (fits_cases r req Hfit) as [Hm' | (_ & seg & Hp)];
      [congruence |].
    exists seg. split; [exact Hp |].
    apply (router_malformed _ _ _ r); assumption.
Qed.

End RouterExtras.

(** X3 for the name of the first seeded lead. *)
Lemma email_local_part_clean_sample :
  exists d,
    d ∈ Seed.domains
    /\ Seed.email SeedSpec.sample_entropy "Alex Patel" SeedSpec.sample_world
       = (Ok ("alex.patel@" +:+ d),
          SeedDetail.advance 1 0 SeedSpec.sample_world).
Proof.
  destruct (email_local_part_clean SeedSpec.sample_entropy "Alex Patel"
              SeedSpec.sample_world eq_refl) as (d & Hd & Hrun & _).
  exists d. split; [exact Hd | exact Hrun].
Defined.

(** X13 for a request that deletes a user. *)
Lemma routes_are_disjoint_sample :
  AuthRoutes.router_delete "/users/:id"
    [AuthRoutes.auth; AuthRoutes.requireRole ["admin"];
     AuthRoutes.ctrl "deleteUser"]
  = AuthRoutes.router_delete "/users/:id"
      [AuthRoutes.auth; AuthRoutes.requireRole ["admin"];
       AuthRoutes.ctrl "deleteUser"].
Proof.
  apply (routes_are_disjoint RouterDetail.admin_deletes_user).
  - unfold AuthRoutes.router.
    do 6 apply list_elem_of_further. apply list_elem_of_here.
  - unfold AuthRoutes.router.
    do 6 apply list_elem_of_further. apply list_elem_of_here.
  - reflexivity.
  - reflexivity.
Defined.

(** X14 for a logout without a token. *)
Lemma dispatch_runs_the_matching_stack_sample :
  AuthRoutes.dispatch RouterSpec.no_token RouterSpec.pass RouterSpec.answer_ok
    AuthRoutes.router RouterSpec.anonymous_logout
  = (AuthRoutes.Respond (AuthRoutes.mkResponse 200 (VObj [])),
     [AuthRoutes.ctrl "logout"]).
Proof.
  destruct (dispatch_runs_the_matching_stack RouterSpec.no_token
              RouterSpec.pass RouterSpec.answer_ok
              (AuthRoutes.router_post "/logout" [AuthRoutes.ctrl "logout"])
              RouterSpec.anonymous_logout) as (H & _).
  - unfold AuthRoutes.router.
    do 3 apply list_elem_of_further. apply list_elem_of_here.
  - apply H; [reflexivity | reflexivity | discriminate].
Defined.

(** X16 for a login attempt the validation turns down. *)
Lemma validation_gates_the_controller_sample :
  AuthRoutes.dispatch RouterSpec.no_token RouterDetail.reject_all
    RouterSpec.answer_ok AuthRoutes.router RouterDetail.login_attempt
  = (AuthRoutes.Respond (AuthRoutes.mkResponse 400 (VObj [("errors", VArr [])])),
     [AuthRoutes.rules "login"]).
Proof.
  destruct (validation_gates_the_controller RouterSpec.no_token
              RouterDetail.reject_all RouterSpec.answer_ok "login"
              RouterDetail.login_attempt) as (Hreject & _).
  - apply list_elem_of_here.
  - reflexivity.
  - apply Hreject. reflexivity.
Defined.

(** X17 for an admin who deletes a user. *)
Lemma admin_passes_the_gate_sample :
  AuthRoutes.dispatch RouterDetail.admin_token_only RouterSpec.pass
    RouterSpec.answer_ok AuthRoutes.router RouterDetail.admin_deletes_user
  = (AuthRoutes.Respond (AuthRoutes.mkResponse 200 (VObj [])),
     [AuthRoutes.auth; AuthRoutes.requireRole ["admin"];
      AuthRoutes.ctrl "deleteUser"]).
Proof.
  destruct (admin_passes_the_gate RouterDetail.admin_token_only RouterSpec.pass
              RouterSpec.answer_ok RouterDetail.admin_deletes_user
              (AuthRoutes.router_delete "/users/:id"
                 [AuthRoutes.auth; AuthRoutes.requireRole ["admin"];
                  AuthRoutes.ctrl "deleteUser"])
              RouterDetail.admin_claims [AuthRoutes.ctrl "deleteUser"])
    as (H & _).
  - unfold AuthRoutes.router.
    do 6 apply list_elem_of_further. apply list_elem_of_here.
  - reflexivity.
  - reflexivity.
  - reflexivity.
  - reflexivity.
  - destruct (H eq_refl) as (req' & Hauth & _ & _ & _ & _ & Hrest).
    injection Hauth as <-. apply Hrest; [reflexivity | discriminate].
Defined.

(** ** The login page: every path *)

Section LoginPageExtras.

Import LoginPage LoginSpec.

Variable login : Value -> Value -> Client -> Completion * Client.
Variable to_string : Value -> string.




(** X19: the only key of localStorage [onSubmit] ever writes is
    [crm_refresh], and it writes it only when [login] resolves with a
    truthy [refreshToken], storing that token; every other key is as the
    [login] call left it. *)
Theorem onSubmit_only_writes_crm_refresh d c :
  let run := login (prop "email" d) (prop "password" d) c in
  let c' := onSubmit login to_string d c in
  (forall k, k <> "crm_refresh" ->
     localStorage c' !! k = localStorage run.2 !! k)
  /\ (localStorage c' !! "crm_refresh" =
      match run.1 with
      | Resolves r =>
          if truthy (member "refreshToken" r)
          then Some (to_string (member "refreshToken" r))
          else localStorage run.2 !! "crm_refresh"
      | Rejects _ => localStorage run.2 !! "crm_refresh"
      end).
Proof.
  cbv zeta. unfold onSubmit.
  destruct (login (prop "email" d) (prop "password" d) c) as [[r | e] c1]; simpl.
  - destruct (nullish r) eqn:E.
    + split; [reflexivity |].
      destruct r; try discriminate E; reflexivity.
    + destruct (truthy (member "refreshToken" r)); simpl.
      * split; [intros k Hk; apply lookup_insert_ne; congruence |].
        apply lookup_insert_eq.
      * split; reflexivity.
  - split; reflexivity.
Qed.

End LoginPageExtras.
